(** * Channel finder: URL filters, query construction, matching loop,
      proxy rotation and batch assembly of [app_working.py]

    A shallow embedding of the synchronous scraper.  Python [str] values are
    modelled as [string], one character per code point below 256, Python
    [None] as
    [None : option _], integers as [Z].  The network, the HTML parser, the
    fuzzy matcher and the UI sink are outside the file: the search engine and
    the matcher appear as section variables, as do the progress calls the
    batch makes outside its [try]; the other UI calls and the sleeps are
    no-ops. *)

From Stdlib Require Import ZArith Lia Bool Ascii String Sorted.
From stdpp Require Import base option strings list gmap.

(** ** Python string primitives *)

Module PyStr.

(** [s.startswith(p)] *)
Fixpoint startswith (p s : string) : bool :=
  match p, s with
  | EmptyString, _ => true
  | String a p', String b s' => if Ascii.eqb a b then startswith p' s' else false
  | String _ _, EmptyString => false
  end.

(** [sub in s] on strings: substring containment. *)
Fixpoint contains (sub s : string) : bool :=
  startswith sub s ||
  match s with
  | EmptyString => false
  | String _ s' => contains sub s'
  end.

(** [any(p in s for p in pats)] *)
Definition any_in (pats : list string) (s : string) : bool :=
  existsb (fun p => contains p s) pats.

(** [x in xs] on a list of strings. *)
Definition mem (x : string) (xs : list string) : bool :=
  existsb (String.eqb x) xs.

(** Truthiness of a string: [bool(s)]. *)
Definition truthy (s : string) : bool :=
  match s with EmptyString => false | String _ _ => true end.

(** [s.split(sep)] for a non-empty separator: left-to-right scan for
    non-overlapping occurrences.  [skip] counts the characters of an
    occurrence that are still to be consumed.  (Python raises [ValueError]
    on an empty separator; the source only splits on literals.) *)
Fixpoint split_go (sep : string) (skip : nat) (s : string) : list string :=
  match s with
  | EmptyString => [EmptyString]
  | String c s' =>
      match skip with
      | S k => split_go sep k s'
      | O =>
          if startswith sep s
          then EmptyString :: split_go sep (String.length sep - 1) s'
          else match split_go sep 0 s' with
               | h :: t => String c h :: t
               | [] => [String c EmptyString]
               end
      end
  end.

Definition split (sep s : string) : list string := split_go sep 0 s.

(** [s.replace(c, '')] for a one-character [c]. *)
Fixpoint remove_char (c : Ascii.ascii) (s : string) : string :=
  match s with
  | EmptyString => EmptyString
  | String a s' => if Ascii.eqb a c then remove_char c s' else String a (remove_char c s')
  end.

(** Whitespace as removed by [str.strip()], for code points below 256:
    space, TAB, LF, VT, FF, CR, the separators FS, GS, RS, US, NEL and the
    no-break space. *)
Definition is_space (a : Ascii.ascii) : bool :=
  let n := Ascii.nat_of_ascii a in
  (n =? 32)%nat || ((9 <=? n)%nat && (n <=? 13)%nat)
  || ((28 <=? n)%nat && (n <=? 31)%nat) || (n =? 133)%nat || (n =? 160)%nat.

Fixpoint lstrip (s : string) : string :=
  match s with
  | EmptyString => EmptyString
  | String a s' => if is_space a then lstrip s' else s
  end.

Fixpoint rstrip (s : string) : string :=
  match s with
  | EmptyString => EmptyString
  | String a s' =>
      match rstrip s' with
      | EmptyString => if is_space a then EmptyString else String a EmptyString
      | r => String a r
      end
  end.

Definition strip (s : string) : string := rstrip (lstrip s).

(** [a not in s] for a character [a]. *)
Fixpoint lacks (a : ascii) (s : string) : bool :=
  match s with
  | EmptyString => true
  | String b s' => negb (Ascii.eqb b a) && lacks a s'
  end.

(** [xs[-1]] on a non-empty list. *)
Definition last_seg (xs : list string) : string := List.last xs EmptyString.

End PyStr.

Import PyStr.

(** ** SyncURLFilter *)

Module SyncURLFilter.

Definition redirect_prefix : string := "/url?q=".

(** [url.split('/url?q=')[1].split('&')[0]]; both index operations are in
    range whenever [url] starts with the prefix (lemma [unwrap_in_range]). *)
Definition unwrap (url : string) : string :=
  nth 0 (split "&" (nth 1 (split redirect_prefix url) EmptyString)) EmptyString.

(** The "Remove Google redirect" step shared by both filters. *)
Definition remove_redirect (url : string) : string :=
  if startswith redirect_prefix url then unwrap url else url.

Definition valid_patterns : list string := ["/channel/"; "/c/"; "/@"; "/user/"].

Definition filter_youtube_url (url : option string) : option string :=
  match url with
  | None => None
  | Some url =>
      if negb (truthy url) then None
      else
        let url := remove_redirect url in
        if contains "youtube.com" url && any_in valid_patterns url
        then Some url
        else None
  end.

Definition filter_twitch_url (url : option string) : option string :=
  match url with
  | None => None
  | Some url =>
      if negb (truthy url) then None
      else
        let url := remove_redirect url in
        if contains "twitch.tv" url && (4 <=? length (split "/" url))%nat
        then Some url
        else None
  end.

End SyncURLFilter.

Import SyncURLFilter.

(** ** Redirect-wrapped forms of a target URL *)

Module Redirect.

Definition hex_digit (n : nat) : ascii :=
  match String.get n "0123456789ABCDEF" with
  | Some a => a
  | None => "0"%char
  end.

(** Characters that [urllib.parse.quote_plus] leaves as they are. *)
Definition is_unreserved (a : ascii) : bool :=
  let n := nat_of_ascii a in
  ((48 <=? n)%nat && (n <=? 57)%nat) || ((65 <=? n)%nat && (n <=? 90)%nat)
  || ((97 <=? n)%nat && (n <=? 122)%nat)
  || Ascii.eqb a "_" || Ascii.eqb a "." || Ascii.eqb a "-" || Ascii.eqb a "~".

(** [%XX] for the byte [n], in front of [rest]. *)
Definition percent (n : nat) (rest : string) : string :=
  String "%" (String (hex_digit (n / 16)) (String (hex_digit (n mod 16)) rest)).

(** [urllib.parse.quote_plus], the encoder the search engine applies to its
    own query: unreserved characters stay, a space becomes [+], and every
    other character becomes the [%XX] of each byte of its UTF-8 encoding:
    one byte below 128, and the two bytes [0xC0 | n >> 6], [0x80 | n & 63]
    for a code point [n] from 128 to 255. *)
Fixpoint quote_plus (s : string) : string :=
  match s with
  | EmptyString => EmptyString
  | String a s' =>
      if is_unreserved a then String a (quote_plus s')
      else if Ascii.eqb a " " then String "+" (quote_plus s')
      else
        let n := nat_of_ascii a in
        if (n <? 128)%nat then percent n (quote_plus s')
        else percent (192 + n / 64) (percent (128 + n mod 64) (quote_plus s'))
  end.

(** [/url?q=<target>&<params>] with the target percent-encoded. *)
Definition wrap_encoded (target params : string) : string :=
  redirect_prefix +:+ quote_plus target +:+ String "&" params.

(** [/url?q=<target>&<params>] with the target embedded as it is. *)
Definition wrap_verbatim (target params : string) : string :=
  redirect_prefix +:+ target +:+ String "&" params.

End Redirect.

Import Redirect.

(** ** SyncChannelFinder: name extraction and query construction *)

Module Queries.

(** The double-quote character of the f-strings [f'"{username}"']. *)
Definition dquote : Ascii.ascii := Ascii.ascii_of_nat 34.

Definition quoted (s : string) : string :=
  String dquote (s +:+ String dquote EmptyString).

(** The literal of two double quotes that the query filter compares with. *)
Definition empty_quotes : string := String dquote (String dquote EmptyString).

Definition twitter_hosts : list string := ["x.com"; "twitter.com"].

Definition reserved_paths : list string :=
  ["home"; "explore"; "notifications"; "messages"; "bookmarks"; "lists";
   "profile"; "more"; "compose"; "search"; "settings"; "help"].

(** "Remove query parameters": [if '?' in p: p = p.split('?')[0]]. *)
Definition drop_query (p : string) : string :=
  if contains "?" p then nth 0 (split "?" p) EmptyString else p.

(** The [for i, part in enumerate(parts)] loop of the X/Twitter branch:
    [part] is a host name and [parts[i + 1]] exists; a reserved path does
    not return and the scan goes on. *)
Fixpoint scan_parts (parts : list string) : option string :=
  match parts with
  | part :: rest =>
      match rest with
      | next :: _ =>
          if mem part twitter_hosts then
            let username_part := remove_char "@"%char (drop_query next) in
            if negb (mem username_part reserved_paths)
            then Some (strip username_part)
            else scan_parts rest
          else scan_parts rest
      | [] => None
      end
  | [] => None
  end.

Definition extract_name_from_url (url : string) : string :=
  if contains "x.com" url || contains "twitter.com" url then
    match scan_parts (split "/" url) with
    | Some name => name
    | None => EmptyString
    end
  else
    let path := if contains "/" url then last_seg (split "/" url) else url in
    let path := drop_query path in
    let path := remove_char "@"%char path in
    let cleaned_name := strip path in
    if truthy cleaned_name && (0 <? String.length cleaned_name)%nat
    then cleaned_name
    else EmptyString.

(** The queries appended before the "Remove empty queries" step. *)
Definition candidate_queries (username profile_name url : string) : list string :=
  (if truthy username then [quoted username] else []) ++
  (if truthy profile_name && negb (String.eqb profile_name username)
   then [quoted profile_name] else []) ++
  (if truthy username && truthy profile_name
   then [username +:+ " " +:+ profile_name] else []) ++
  (if truthy url then
     let url_extracted_name := extract_name_from_url url in
     if truthy url_extracted_name
        && negb (mem url_extracted_name [username; profile_name])
     then [quoted url_extracted_name] else []
   else []).

(** [q.strip() != '""' and q.strip()] *)
Definition keep_query (q : string) : bool :=
  negb (String.eqb (strip q) empty_quotes) && truthy (strip q).

(** [queries = [q for q in queries if ...]; queries = queries[:3]] *)
Definition build_queries (username profile_name url : string) : list string :=
  take 3 (List.filter keep_query (candidate_queries username profile_name url)).

End Queries.

Import Queries.

(** ** SyncChannelFinder: the per-platform matching loop *)

Inductive platform := youtube | twitch.

(** One entry of the list returned by [search_with_requests]. *)
Record SearchResult := {
  sr_title : string;
  sr_url : string;
  sr_snippet : string
}.

(** The [best_match] dictionary. *)
Record BestMatch := {
  score : Z;
  title : option string;
  url : option string
}.

(** The [results] dictionary returned by [find_channels_for_user]. *)
Record Channels := {
  youtube_url : option string;
  youtube_score : Z;
  twitch_url : option string;
  twitch_score : Z
}.

(** What a run does that is visible from outside: the searches it issues,
    every assignment to [best_match], and the sleeps between queries. *)
Inductive event :=
| EvSearch (query : string) (p : platform)
| EvAssign (b : BestMatch)
| EvSleep.

(** Result of the [for result in search_results] loop. *)
Inductive scan :=
| Found (b : BestMatch)
| NotFound
| ScanRaised.

Definition best_match_init : BestMatch :=
  {| score := 0; title := None; url := None |}.

Definition results_init : Channels :=
  {| youtube_url := None; youtube_score := 0;
     twitch_url := None; twitch_score := 0 |}.

(** The successive values of [best_match] during a pass: the initial one,
    then every assigned one. *)
Definition assigns (evs : list event) : list BestMatch :=
  omap (fun e => match e with EvAssign b => Some b | _ => None end) evs.

Definition history (evs : list event) : list BestMatch :=
  best_match_init :: assigns evs.

(** The searches issued, in order. *)
Definition searches (evs : list event) : list (string * platform) :=
  omap (fun e => match e with EvSearch q p => Some (q, p) | _ => None end) evs.

(** The two output fields of a platform. *)
Definition channel_url (p : platform) (c : Channels) : option string :=
  match p with youtube => youtube_url c | twitch => twitch_url c end.

Definition channel_score (p : platform) (c : Channels) : Z :=
  match p with youtube => youtube_score c | twitch => twitch_score c end.

(** A recorded match has a score of at least 50 and a non-empty URL. *)
Definition recorded (b : BestMatch) : Prop :=
  (50 <= score b)%Z /\ exists clean, url b = Some clean /\ truthy clean = true.

(** An output field pair is either a non-empty URL with a score of at least
    50, or no URL with score 0. *)
Definition field_ok (u : option string) (s : Z) : Prop :=
  (exists clean, u = Some clean /\ truthy clean = true /\ (50 <= s)%Z)
  \/ (u = None /\ s = 0%Z).

Definition filter_for (p : platform) (u : string) : option string :=
  match p with
  | youtube => filter_youtube_url (Some u)
  | twitch => filter_twitch_url (Some u)
  end.

(** "Set minimum score for enhanced matches". *)
Definition floor50 (match_score : Z) : Z :=
  if (match_score <? 50)%Z then 50%Z else match_score.

Section ChannelFinder.

(** The state of everything behind the search engine (proxy pool, network,
    random delays). *)
Variable World : Type.

(** [self.search_engine.search_with_requests(query, platform)]; [None] is a
    raised exception. *)
Variable search_with_requests :
  string -> platform -> World -> option (list SearchResult) * World.

(** [EnhancedMatcher.enhanced_name_match(clean_url, username, profile_name)]
    and [calculate_match_score(username, profile_name, title, clean_url)];
    [None] is a raised exception. *)
Variable enhanced_name_match : string -> string -> string -> option bool.
Variable calculate_match_score : string -> string -> string -> string -> option Z.

Variables username profile_name : string.

(** The result loop: rejected URLs are skipped, the first accepted one is
    recorded and ends the loop; an exception of the matcher leaves through
    the [except] of the query loop. *)
Fixpoint scan_results (p : platform) (search_results : list SearchResult) : scan :=
  match search_results with
  | [] => NotFound
  | result :: rest =>
      match filter_for p (sr_url result) with
      | None => scan_results p rest
      | Some clean_url =>
          if negb (truthy clean_url) then scan_results p rest
          else
            match enhanced_name_match clean_url username profile_name with
            | None => ScanRaised
            | Some false => scan_results p rest
            | Some true =>
                match calculate_match_score username profile_name
                        (sr_title result) clean_url with
                | None => ScanRaised
                | Some match_score =>
                    Found {| score := floor50 match_score;
                             title := Some (sr_title result);
                             url := Some clean_url |}
                end
            end
      end
  end.

(** The [for query in queries] loop of one platform, from the current
    [best_match]; returns the final [best_match], the events in order and
    the world after the last search. *)
Fixpoint query_loop (p : platform) (queries : list string)
    (best_match : BestMatch) (w : World) : BestMatch * list event * World :=
  match queries with
  | [] => (best_match, [], w)
  | query :: rest =>
      let '(r, w1) := search_with_requests query p w in
      let after_try (b : BestMatch) (evs : list event) :=
        if (50 <=? score b)%Z then (b, evs, w1)
        else
          let '(b', evs', w') := query_loop p rest b w1 in
          (b', (evs ++ EvSleep :: evs'), w') in
      let continue (evs : list event) :=
        let '(b', evs', w') := query_loop p rest best_match w1 in
        (b', (evs ++ evs'), w') in
      match r with
      | None => continue [EvSearch query p]
      | Some search_results =>
          match search_results with
          | [] => after_try best_match [EvSearch query p]
          | _ :: _ =>
              match scan_results p search_results with
              | ScanRaised => continue [EvSearch query p]
              | Found b =>
                  if (50 <=? score b)%Z
                  then (b, [EvSearch query p; EvAssign b], w1)
                  else after_try b [EvSearch query p; EvAssign b]
              | NotFound =>
                  if (50 <=? score best_match)%Z
                  then (best_match, [EvSearch query p], w1)
                  else after_try best_match [EvSearch query p]
              end
          end
      end
  end.

(** One iteration of [for platform in ['youtube', 'twitch']]. *)
Definition platform_pass (p : platform) (queries : list string) (w : World)
  : BestMatch * list event * World :=
  query_loop p queries best_match_init w.

(** "Store best match". *)
Definition store_best (p : platform) (best_match : BestMatch) (results : Channels)
  : Channels :=
  if (50 <=? score best_match)%Z then
    match p with
    | youtube => {| youtube_url := url best_match;
                    youtube_score := score best_match;
                    twitch_url := twitch_url results;
                    twitch_score := twitch_score results |}
    | twitch => {| youtube_url := youtube_url results;
                   youtube_score := youtube_score results;
                   twitch_url := url best_match;
                   twitch_score := score best_match |}
    end
  else results.

Definition find_channels_for_user (url : string) (w : World)
  : Channels * list event * World :=
  let queries := build_queries username profile_name url in
  let '(by_, evs_y, w1) := platform_pass youtube queries w in
  let results := store_best youtube by_ results_init in
  let '(bt, evs_t, w2) := platform_pass twitch queries w1 in
  let results := store_best twitch bt results in
  (results, (evs_y ++ evs_t), w2).

End ChannelFinder.

(** ** The parts of a run *)

Definition platform_eqb (a b : platform) : bool :=
  match a, b with
  | youtube, youtube | twitch, twitch => true
  | _, _ => false
  end.

(** The searches issued for one platform, in order. *)
Definition searches_on (p : platform) (evs : list event) : list (string * platform) :=
  List.filter (fun s => platform_eqb p s.2) (searches evs).

Section RunParts.

Variable World : Type.
Variable search_with_requests :
  string -> platform -> World -> option (list SearchResult) * World.
Variable enhanced_name_match : string -> string -> string -> option bool.
Variable calculate_match_score : string -> string -> string -> string -> option Z.
Variables username profile_name : string.

(** The world in which the pass of a platform starts, in the run on [url]
    from [w]: [w] itself for YouTube, and for Twitch the world the YouTube
    pass ends in. *)
Definition pass_start (p : platform) (url : string) (w : World) : World :=
  match p with
  | youtube => w
  | twitch =>
      (platform_pass World search_with_requests enhanced_name_match
         calculate_match_score username profile_name youtube
         (build_queries username profile_name url) w).2
  end.

End RunParts.

(** ** SyncProxyManager *)

(** Outcome of a call that may raise. *)
Inductive py (A : Type) :=
| Ok (a : A)
| Raise.
Arguments Ok {A} a.
Arguments Raise {A}.

Module SyncProxyManager.

(** A proxy dictionary [{'http': ..., 'https': ...}]. *)
Record proxy := {
  http : string;
  https : string
}.

Record t := {
  proxies : list proxy;
  current_index : nat;
  failed_proxies : gset string
}.

(** One row of the proxy file, [f"http://{row['ip']}:{row['port']}"]. *)
Definition make_proxy (ip port : string) : proxy :=
  let address := "http://" +:+ ip +:+ ":" +:+ port in
  {| http := address; https := address |}.

(** [__init__] followed by [load_proxies]; [shuffled] is the list read from
    the file after [random.shuffle] (empty when loading failed). *)
Definition new (shuffled : list proxy) : t :=
  {| proxies := shuffled; current_index := 0; failed_proxies := ∅ |}.

(** The [while attempts < len(self.proxies)] loop; [fuel] is the number of
    attempts left.  [self.proxies[self.current_index]] raises [IndexError]
    when the index is out of range. *)
Fixpoint rotate (fuel : nat) (pm : t) : py (option proxy) * t :=
  match fuel with
  | O => (Ok None, pm)
  | S fuel' =>
      match proxies pm !! current_index pm with
      | None => (Raise, pm)
      | Some proxy =>
          let pm' := {| proxies := proxies pm;
                        current_index := (current_index pm + 1) mod length (proxies pm);
                        failed_proxies := failed_proxies pm |} in
          let proxy_key := http proxy in
          if decide (proxy_key ∈ failed_proxies pm)
          then rotate fuel' pm'
          else (Ok (Some proxy), pm')
      end
  end.

Definition get_next_proxy (pm : t) : py (option proxy) * t :=
  match proxies pm with
  | [] => (Ok None, pm)
  | _ :: _ => rotate (length (proxies pm)) pm
  end.

(** [if proxy:] holds for every proxy dictionary and fails for [None]. *)
Definition mark_proxy_failed (proxy : option proxy) (pm : t) : t :=
  match proxy with
  | None => pm
  | Some proxy =>
      {| proxies := proxies pm;
         current_index := current_index pm;
         failed_proxies := {[ http proxy ]} ∪ failed_proxies pm |}
  end.

(** The calls a pool receives during its lifetime. *)
Inductive call :=
| GetNext
| MarkFailed (proxy : option proxy).

(** Runs the calls in order; returns what each [GetNext] produced. *)
Fixpoint run (calls : list call) (pm : t) : list (py (option proxy)) * t :=
  match calls with
  | [] => ([], pm)
  | GetNext :: rest =>
      let '(r, pm1) := get_next_proxy pm in
      let '(rs, pm2) := run rest pm1 in
      (r :: rs, pm2)
  | MarkFailed proxy :: rest => run rest (mark_proxy_failed proxy pm)
  end.

(** The index stays inside the list: the invariant of every pool made by
    [new]. *)
Definition wf (pm : t) : Prop :=
  proxies pm = [] \/ current_index pm < length (proxies pm).

End SyncProxyManager.

(** ** process_users_with_real_logic *)

Module Batch.

(** A table cell. *)
Inductive cell :=
| CStr (s : string)
| CInt (z : Z)
| CNaN.

(** A row: the [Series] yielded by [df.iterrows()] on input, the
    [result_row] dictionary on output; columns in order. *)
Definition record := list (string * cell).

(** [row[key]]; [None] is a [KeyError]. *)
Fixpoint get (key : string) (row : record) : option cell :=
  match row with
  | [] => None
  | (k, v) :: rest => if String.eqb k key then Some v else get key rest
  end.

Definition required_columns : list string :=
  ["username"; "profile_name"; "url"; "followers"].

(** The column check of [validate_csv], on one row. *)
Definition has_required (row : record) : bool :=
  forallb (fun col => bool_decide (is_Some (get col row))) required_columns.

(** [channels['youtube_url'] or ''] *)
Definition or_empty (u : option string) : string :=
  match u with
  | Some s => if truthy s then s else EmptyString
  | None => EmptyString
  end.

(** The [result_row] of the [try] branch ([Some channels]) and of the
    [except] branch ([None]). *)
Definition result_row (username profile_name url followers : cell)
    (channels : option Channels) : record :=
  match channels with
  | Some channels =>
      [("username", username); ("profile_name", profile_name);
       ("url", url); ("followers", followers);
       ("youtube_url", CStr (or_empty (youtube_url channels)));
       ("youtube_score", CInt (youtube_score channels));
       ("twitch_url", CStr (or_empty (twitch_url channels)));
       ("twitch_score", CInt (twitch_score channels))]
  | None =>
      [("username", username); ("profile_name", profile_name);
       ("url", url); ("followers", followers);
       ("youtube_url", CStr EmptyString);
       ("youtube_score", CInt 0);
       ("twitch_url", CStr EmptyString);
       ("twitch_score", CInt 0)]
  end.

(** An index label of the frame, the [i] of [df.iterrows()]: an integer,
    as in the default index, or a string. *)
Inductive label :=
| LInt (z : Z)
| LStr (s : string).

(** [i + 1]: a [TypeError] on a label that is not a number. *)
Definition label_succ (i : label) : py Z :=
  match i with
  | LInt z => Ok (z + 1)%Z
  | LStr _ => Raise
  end.

Section Process.

Variable World : Type.

(** [channel_finder.find_channels_for_user(username, profile_name, url)] as
    the batch loop sees it: [None] is a raised exception. *)
Variable find_channels :
  cell -> cell -> cell -> World -> option Channels * World.

(** The two calls on the objects passed in,
    [progress_bar.progress((i + 1) / total_users)] and
    [status_text.text(f"Processing {username} ({i + 1}/{total_users})")],
    given [i + 1], [total_users] and [username]; [false] when one of them
    raises (a progress bar refuses a value outside its range). *)
Variable report_progress : Z -> nat -> cell -> bool.

(** The body of [for i, row in df.iterrows()].  The three column reads,
    [i + 1] and the two progress calls come before the [try]: a missing
    column, a label that is not a number or a refused progress value
    aborts the batch ([Raise]).  [total_users] is not 0 inside the loop. *)
Definition process_row (total_users : nat) (i : label) (row : record) (w : World)
  : py record * World :=
  match get "username" row, get "profile_name" row, get "url" row with
  | Some username, Some profile_name, Some url =>
      match label_succ i with
      | Raise => (Raise, w)
      | Ok progress_num =>
          if report_progress progress_num total_users username then
            let '(channels, w1) := find_channels username profile_name url w in
            match get "followers" row with
            | Some followers =>
                (Ok (result_row username profile_name url followers channels), w1)
            | None =>
                (* both branches read row['followers']; inside the [try] the
                   KeyError is caught and raised again by the [except] branch *)
                (Raise, w1)
            end
          else (Raise, w)
      end
  | _, _, _ => (Raise, w)
  end.

Fixpoint process_rows (total_users : nat) (rows : list (label * record)) (w : World)
  : py (list record) * World :=
  match rows with
  | [] => (Ok [], w)
  | (i, row) :: rest =>
      match process_row total_users i row w with
      | (Raise, w1) => (Raise, w1)
      | (Ok r, w1) =>
          match process_rows total_users rest w1 with
          | (Raise, w2) => (Raise, w2)
          | (Ok rs, w2) => (Ok (r :: rs), w2)
          end
      end
  end.

(** [results = []; total_users = len(df); for ...:
    results.append(result_row); return pd.DataFrame(results)], the input
    frame being its labelled rows and the output frame its list of
    records. *)
Definition process_users_with_real_logic (df : list (label * record)) (w : World)
  : py (list record) * World :=
  process_rows (length df) df w.

(** What a row needs for its turn of the loop to reach the [try] and to
    build its output row: the four columns, an integer label and progress
    calls that return. *)
Definition row_ready (total_users : nat) (ir : label * record) : Prop :=
  has_required ir.2 = true /\
  exists z username,
    ir.1 = LInt z /\ get "username" ir.2 = Some username /\
    report_progress (z + 1)%Z total_users username = true.

End Process.

(** The default index of a frame: the labels 0, 1, 2, ... *)
Definition range_index (rows : list record) : list (label * record) :=
  imap (fun i row => (LInt (Z.of_nat i), row)) rows.


(** The columns of every output row. *)
Definition output_columns : list string :=
  required_columns ++ ["youtube_url"; "youtube_score"; "twitch_url"; "twitch_score"].

(** The four match cells of an output row. *)
Definition match_cells (row : record) (yu : string) (ys : Z) (tu : string) (ts : Z)
  : Prop :=
  get "youtube_url" row = Some (CStr yu) /\
  get "youtube_score" row = Some (CInt ys) /\
  get "twitch_url" row = Some (CStr tu) /\
  get "twitch_score" row = Some (CInt ts).

(** What an output row owes to its input row: the eight output columns in
    order, the four required cells copied, and match cells that come from
    the finder called on the row's identity, empty and zero when it raised. *)
Definition row_agrees {World : Type}
    (find_channels : cell -> cell -> cell -> World -> option Channels * World)
    (rin rout : record) : Prop :=
  map fst rout = output_columns /\
  (forall col, In col required_columns -> get col rout = get col rin) /\
  exists username profile_name url w,
    get "username" rin = Some username /\
    get "profile_name" rin = Some profile_name /\
    get "url" rin = Some url /\
    match (find_channels username profile_name url w).1 with
    | None => match_cells rout EmptyString 0 EmptyString 0
    | Some c =>
        match_cells rout (or_empty (youtube_url c)) (youtube_score c)
                    (or_empty (twitch_url c)) (twitch_score c)
    end.

(** The finder only returns what [find_channels_for_user] computes. *)
Definition resolves_with {World : Type}
    (search_with_requests :
       string -> platform -> World -> option (list SearchResult) * World)
    (enhanced_name_match : string -> string -> string -> option bool)
    (calculate_match_score : string -> string -> string -> string -> option Z)
    (find_channels : cell -> cell -> cell -> World -> option Channels * World)
  : Prop :=
  forall u p l w c w',
    find_channels u p l w = (Some c, w') ->
    exists username profile_name url w0,
      (find_channels_for_user World search_with_requests enhanced_name_match
         calculate_match_score username profile_name url w0).1.1 = c.

(** The url field of a platform is non-empty exactly when its score field
    is at least 50. *)
Definition url_iff_score (row : record) : Prop :=
  exists yu ys tu ts,
    match_cells row yu ys tu ts /\
    (yu <> EmptyString <-> (50 <= ys)%Z) /\
    (tu <> EmptyString <-> (50 <= ts)%Z).

End Batch.

Import Batch.

(** ** A small concrete run *)

Module Demo.

Definition r_video : SearchResult :=
  {| sr_title := "Alice plays"; sr_url := "https://www.youtube.com/watch?v=1";
     sr_snippet := "" |}.

Definition r_channel : SearchResult :=
  {| sr_title := "Alice W"; sr_url := "https://www.youtube.com/@alice";
     sr_snippet := "" |}.

Definition r_stream : SearchResult :=
  {| sr_title := "alice - Twitch"; sr_url := "https://www.twitch.tv/alice";
     sr_snippet := "" |}.

(** The world counts the searches issued. *)
Definition demo_search (q : string) (p : platform) (w : nat)
  : option (list SearchResult) * nat :=
  (Some match p with
        | youtube => [r_video; r_channel]
        | twitch => [r_stream]
        end, S w).

Definition demo_match (clean username profile_name : string) : option bool :=
  Some true.

Definition demo_score (s : Z) (username profile_name title clean : string)
  : option Z :=
  Some s.

(** A finder that raises on a row without a textual identity. *)
Definition demo_find (u p l : cell) (w : nat) : option Channels * nat :=
  match u, p, l with
  | CStr username, CStr profile_name, CStr url =>
      let r := find_channels_for_user nat demo_search demo_match (demo_score 30)
                 username profile_name url w in
      (Some r.1.1, r.2)
  | _, _, _ => (None, w)
  end.

Definition demo_df : list record :=
  [[("username", CStr "alice"); ("profile_name", CStr "Alice W");
    ("url", CStr "https://x.com/alicew"); ("followers", CInt 10)];
   [("username", CNaN); ("profile_name", CStr "Bob");
    ("url", CStr "https://x.com/bob"); ("followers", CInt 3)]].

(** Progress objects that accept the values from 0 to 1, as a progress bar
    does. *)
Definition demo_report (progress_num : Z) (total_users : nat) (username : cell)
  : bool :=
  (0 <=? progress_num)%Z && (progress_num <=? Z.of_nat total_users)%Z.

(** A frame with the four columns and string labels. *)
Definition demo_df_labelled : list (label * record) :=
  [(LStr "a", [("username", CStr "alice"); ("profile_name", CStr "Alice W");
               ("url", CStr "https://x.com/alicew"); ("followers", CInt 10)])].

(** An input table with a fifth column. *)
Definition demo_df_extra : list record :=
  [[("username", CStr "alice"); ("profile_name", CStr "Alice W");
    ("url", CStr "https://x.com/alicew"); ("followers", CInt 10);
    ("bio", CStr "streamer")]].

End Demo.

Import Demo.

(** ** Pool states used to describe the rotation *)

Module PoolState.

Import SyncProxyManager.

(** The pool [pm] with its rotation index at [i]. *)
Definition at_index (pm : t) (i : nat) : t :=
  {| proxies := proxies pm; current_index := i;
     failed_proxies := failed_proxies pm |}.

(** The keys that a call sequence marks as failed. *)
Fixpoint marked (calls : list call) : gset string :=
  match calls with
  | [] => ∅
  | MarkFailed (Some proxy) :: rest => {[ http proxy ]} ∪ marked rest
  | _ :: rest => marked rest
  end.

End PoolState.

(** ** Shapes of stripped text *)

(** The text is empty or starts with a character that is not a space. *)
Definition left_tight (s : string) : Prop :=
  match s with
  | EmptyString => True
  | String c _ => is_space c = false
  end.

(** ** validate_csv *)

Module Validate.

(** A frame: its column index and its rows, each row a record over the
    columns. *)
Record DataFrame := {
  columns : list string;
  rows : list record
}.

(** Every row carries exactly the columns of the frame, in order. *)
Definition frame_ok (df : DataFrame) : Prop :=
  Forall (fun row => map fst row = columns df) (rows df).

(** [sep.join(xs)] *)
Fixpoint join (sep : string) (xs : list string) : string :=
  match xs with
  | [] => EmptyString
  | [x] => x
  | x :: rest => x +:+ sep +:+ join sep rest
  end.

(** [pd.isna] on a cell. *)
Definition isna (c : cell) : bool :=
  match c with CNaN => true | _ => false end.

(** [df.empty]: one of the two axes has length 0. *)
Definition empty (df : DataFrame) : bool :=
  match rows df, columns df with
  | [], _ => true
  | _, [] => true
  | _, _ => false
  end.

(** [df['username'].isna().all()] *)
Definition all_usernames_na (df : DataFrame) : bool :=
  forallb (fun row => match get "username" row with
                      | Some c => isna c
                      | None => true
                      end) (rows df).

Definition validate_csv (df : DataFrame) : bool * string :=
  if negb (forallb (fun col => mem col (columns df)) required_columns) then
    let missing :=
      List.filter (fun col => negb (mem col (columns df))) required_columns in
    (false, "Missing columns: " +:+ join ", " missing)
  else if empty df then (false, "CSV file is empty")
  else if all_usernames_na df then (false, "No valid usernames found")
  else (true, "Valid CSV format").

End Validate.

(** ** SyncSearchEngine *)

Module SyncSearchEngine.

Import SyncProxyManager.

(** What the code reads of a parsed element: [get_text()] and
    [get('href')]. *)
Record Tag := {
  get_text : string;
  attr_href : option string
}.

(** A result container: [div.select_one(selector)]. *)
Record Div := {
  select_one : string -> option Tag
}.

(** The parsed page: [soup.select(selector)] and
    [soup.find_all('a', href=True)]. *)
Record Soup := {
  select : string -> list Div;
  find_all_a : list Tag
}.

Record Response := {
  status_code : Z;
  text : string;
  soup : Soup
}.

Definition bot_phrase : string := "Our systems have detected unusual traffic".

Definition search_result_selectors : list string :=
  ["div.g"; "div[data-ved]"; ".yuRUbf"; "div.tF2Cxc"].

Definition title_selectors : list string :=
  ["h3"; ".LC20lb"; "[role=" +:+ String dquote ("heading" +:+ String dquote "]");
   "h3 span"; ".DKV0Md"; ".BNeawe.vvjwJb.AP7Wnd"].

Definition link_selectors : list string := ["a[href]"; "a"; "[href]"].

Definition snippet_selectors : list string := [".VwiC3b"; ".s"; ".st"].

Definition non_channel_paths : list string := ["/watch?"; "/shorts/"; "/playlist?"].

Definition platform_hint (p : platform) : string :=
  match p with youtube => " youtube channel" | twitch => " twitch" end.

(** [f"https://www.google.com/search?q={quote_plus(query + hint)}"] *)
Definition search_url (query : string) (p : platform) : string :=
  "https://www.google.com/search?q=" +:+ quote_plus (query +:+ platform_hint p).

(** "Check if it's a platform URL" of the structured branch. *)
Definition is_platform_url (p : platform) (href : string) : bool :=
  match p with
  | youtube => contains "youtube.com" href
  | twitch => contains "twitch.tv" href
  end.

(** [text[:n]] *)
Fixpoint prefix_chars (n : nat) (s : string) : string :=
  match n, s with
  | S n', String c s' => String c (prefix_chars n' s')
  | _, _ => EmptyString
  end.

(** The [for selector in search_result_selectors] loop: the first
    selection that is not empty, else the last one. *)
Fixpoint first_selection (page : Soup) (selectors : list string) (last : list Div)
  : list Div :=
  match selectors with
  | [] => last
  | selector :: rest =>
      match select page selector with
      | [] => first_selection page rest []
      | divs => divs
      end
  end.

(** The [for sel in selectors: elem = div.select_one(sel); if elem and
    good(elem): break] loops: the first element that is good, else whatever
    the last selector gave. *)
Fixpoint pick (good : Tag -> bool) (div : Div) (selectors : list string)
    (last : option Tag) : option Tag :=
  match selectors with
  | [] => last
  | sel :: rest =>
      match select_one div sel with
      | Some elem => if good elem then Some elem else pick good div rest (Some elem)
      | None => pick good div rest None
      end
  end.

Definition has_text (elem : Tag) : bool := truthy (strip (get_text elem)).

Definition has_href (elem : Tag) : bool :=
  match attr_href elem with Some h => truthy h | None => false end.

(** [a or b or c] on elements, which are always truthy. *)
Fixpoint first_elem (div : Div) (selectors : list string) : option Tag :=
  match selectors with
  | [] => None
  | sel :: rest =>
      match select_one div sel with
      | Some elem => Some elem
      | None => first_elem div rest
      end
  end.

Section Engine.

(** [urllib.parse.unquote]; [None] is a raised exception. *)
Variable unquote : string -> option string.

(** "Clean Google redirect URLs": decode the wrapped target, and fall back
    to the raw target when decoding raises. *)
Definition clean_redirect (href : string) : string :=
  if startswith redirect_prefix href then
    match unquote (unwrap href) with
    | Some decoded => decoded
    | None => unwrap href
    end
  else href.

(** A result that comes from a link to the platform. *)
Definition from_platform_link (p : platform) (r : SearchResult) : Prop :=
  exists href, is_platform_url p href = true /\ sr_url r = clean_redirect href.

(** Direct link extraction, one anchor: [None] when the anchor is passed
    over. *)
Definition direct_link (p : platform) (link : Tag) : option SearchResult :=
  let href := match attr_href link with Some h => h | None => EmptyString end in
  let text := strip (get_text link) in
  let is_platform_url :=
    match p with
    | youtube =>
        if contains "youtube.com" href
        then negb (any_in non_channel_paths href)
        else false
    | twitch => contains "twitch.tv" href
    end in
  if is_platform_url && truthy text && (3 <? String.length text)
  then Some {| sr_title := prefix_chars 100 text;
               sr_url := clean_redirect href;
               sr_snippet := EmptyString |}
  else None.

(** [platform_links[:max_results]] *)
Definition direct_extraction (p : platform) (max_results : nat) (page : Soup)
  : list SearchResult :=
  take max_results (omap (direct_link p) (find_all_a page)).

(** The [for i, div in enumerate(...)] loop of the structured branch, with
    the results collected so far; [link_elem['href']] raises on an element
    without that attribute. *)
Fixpoint parse_divs (p : platform) (max_results : nat) (divs : list Div)
    (results : list SearchResult) : py (list SearchResult) :=
  match divs with
  | [] => Ok results
  | div :: rest =>
      match pick has_text div title_selectors None,
            pick has_href div link_selectors None with
      | Some title_elem, Some link_elem =>
          match attr_href link_elem with
          | None => Raise
          | Some url =>
              if is_platform_url p url then
                let snippet :=
                  match first_elem div snippet_selectors with
                  | Some snippet_elem => strip (get_text snippet_elem)
                  | None => EmptyString
                  end in
                let results' :=
                  results ++ [{| sr_title := strip (get_text title_elem);
                                 sr_url := clean_redirect url;
                                 sr_snippet := snippet |}] in
                if (max_results <=? length results')
                then Ok results'
                else parse_divs p max_results rest results'
              else parse_divs p max_results rest results
          end
      | _, _ => parse_divs p max_results rest results
      end
  end.

(** Everything between the bot check and the [return]. *)
Definition extract (p : platform) (max_results : nat) (page : Soup)
  : py (list SearchResult) :=
  match first_selection page search_result_selectors [] with
  | [] => Ok (direct_extraction p max_results page)
  | search_divs => parse_divs p max_results (take (max_results * 2) search_divs) []
  end.

(** The state behind the HTTP session. *)
Variable Net : Type.

(** [self.session.get(search_url, timeout=15, proxies=proxy)]; [None] is a
    raised exception. *)
Variable session_get : string -> option proxy -> Net -> option Response * Net.

(** One call of [self.session.get]: the address and the proxy passed to
    it.  What the session does below the call (the three retries its
    adapter makes on 429 and 5xx answers, the redirects it follows) is part
    of [session_get] and is not counted here. *)
Definition request := (string * option proxy)%type.

(** [for attempt in range(max_proxy_attempts)], with [attempts] iterations
    left; returns the result, the calls of [session.get] in order, the pool
    and the network state.  [get_next_proxy] is called outside the [try]. *)
Fixpoint search_attempts (attempts : nat) (query : string) (p : platform)
    (max_results : nat) (pm : t) (net : Net)
  : py (list SearchResult) * list request * t * Net :=
  match attempts with
  | O => (Ok [], [], pm, net)
  | S attempts' =>
      match get_next_proxy pm with
      | (Raise, pm1) => (Raise, [], pm1, net)
      | (Ok proxy, pm1) =>
          let '(r, net1) := session_get (search_url query p) proxy net in
          let retry :=
            let '(res, reqs, pm2, net2) :=
              search_attempts attempts' query p max_results
                (mark_proxy_failed proxy pm1) net1 in
            (res, (search_url query p, proxy) :: reqs, pm2, net2) in
          match r with
          | None => retry
          | Some response =>
              if (status_code response =? 200)%Z then
                if contains bot_phrase (text response) then retry
                else
                  match extract p max_results (soup response) with
                  | Raise => retry
                  | Ok results =>
                      (Ok results, [(search_url query p, proxy)], pm1, net1)
                  end
              else retry
          end
      end
  end.

Definition max_proxy_attempts : nat := 3.

Definition search_with_requests (query : string) (p : platform)
    (max_results : nat) (pm : t) (net : Net)
  : py (list SearchResult) * list request * t * Net :=
  search_attempts max_proxy_attempts query p max_results pm net.

(** The engine as [SyncChannelFinder] calls it ([max_results] left at its
    default 5), over a world made of the pool, the network state and the
    calls of [session.get] made so far. *)
Definition engine_search (query : string) (p : platform)
    (w : t * Net * list request)
  : option (list SearchResult) * (t * Net * list request) :=
  let '(pm, net, log) := w in
  let '(res, reqs, pm', net') := search_with_requests query p 5 pm net in
  (match res with Ok results => Some results | Raise => None end,
   (pm', net', log ++ reqs)).

End Engine.

End SyncSearchEngine.

(** ** A small page and network for the search engine *)

Module EngineDemo.

Import SyncProxyManager SyncSearchEngine.

(** Stands in for [unquote] on text without escapes. *)
Definition demo_unquote (s : string) : option string := Some s.

Definition link_tag : Tag :=
  {| get_text := "Alice W - YouTube";
     attr_href := Some "/url?q=https://www.youtube.com/@alice&sa=U" |}.

Definition title_tag : Tag :=
  {| get_text := " Alice W "; attr_href := None |}.

Definition result_div : Div :=
  {| select_one := fun sel =>
       if String.eqb sel "h3" then Some title_tag
       else if String.eqb sel "a[href]" then Some link_tag
       else None |}.

Definition result_page : Soup :=
  {| select := fun sel => if String.eqb sel "div.g" then [result_div] else [];
     find_all_a := [link_tag] |}.

Definition empty_page : Soup :=
  {| select := fun _ => []; find_all_a := [] |}.

Definition ok_response : Response :=
  {| status_code := 200; text := "<html>results</html>"; soup := result_page |}.

Definition bot_response : Response :=
  {| status_code := 200;
     text := "Our systems have detected unusual traffic from your computer network";
     soup := empty_page |}.

(** The network state counts the calls: the first one gets the bot
    page, the later ones the results. *)
Definition demo_get (url : string) (proxy : option proxy) (net : nat)
  : option Response * nat :=
  (Some (if (net =? 0)%nat then bot_response else ok_response), S net).

(** A network that always answers with the bot page. *)
Definition bot_get (url : string) (proxy : option proxy) (net : nat)
  : option Response * nat :=
  (Some bot_response, S net).

Definition proxy_a : proxy := make_proxy "10.0.0.1" "80".
Definition proxy_b : proxy := make_proxy "10.0.0.2" "81".

Definition demo_pool : t := new [proxy_a; proxy_b].

End EngineDemo.

(** ** A search engine that finds nothing at first *)

(** The first search (world 0) comes back empty; the later ones answer
    as [demo_search]. *)
Definition late_search (q : string) (p : platform) (w : nat)
  : option (list SearchResult) * nat :=
  if (w =? 0)%nat then (Some [], 1) else demo_search q p w.

(** * Properties *)

(** ** Strings *)

Section StringFacts.

Lemma append_cons (a : ascii) (p r : string) :
  String a p +:+ r = String a (p +:+ r).
Proof. reflexivity. Qed.

Lemma startswith_app (p r : string) : startswith p (p +:+ r) = true.
Proof.
  induction p as [|a p IH]; [reflexivity|].
  rewrite append_cons. simpl. now rewrite Ascii.eqb_refl.
Qed.

Lemma startswith_trans (a b c : string) :
  startswith a b = true -> startswith b c = true -> startswith a c = true.
Proof.
  revert b c. induction a as [|x a IH]; intros b c Hab Hbc; [reflexivity|].
  destruct b as [|y b]; [discriminate|].
  destruct c as [|z c]; [discriminate|].
  simpl in *.
  destruct (Ascii.eqb_spec x y) as [->|]; [|discriminate].
  destruct (Ascii.eqb_spec y z) as [->|]; [|discriminate].
  eauto.
Qed.

Lemma startswith_nil (p : string) : startswith p EmptyString = negb (truthy p).
Proof. now destruct p. Qed.

Lemma contains_truthy (sub s : string) :
  truthy sub = true -> contains sub s = true -> truthy s = true.
Proof. destruct s; [|reflexivity]. destruct sub; simpl; congruence. Qed.

Lemma split_go_not_nil (sep : string) (k : nat) (s : string) :
  split_go sep k s <> [].
Proof.
  revert k. induction s as [|c s IH]; intros k; simpl; [discriminate|].
  destruct k; [|apply IH].
  destruct (startswith sep (String c s)); [discriminate|].
  destruct (split_go sep 0 s); discriminate.
Qed.

(** Once an occurrence has been found, its characters are skipped. *)
Lemma split_go_skip (sep p r : string) :
  split_go sep (String.length p) (p +:+ r) = split_go sep 0 r.
Proof.
  induction p as [|a p IH]; [reflexivity|].
  rewrite append_cons. exact IH.
Qed.

Lemma split_startswith (sep r : string) :
  truthy sep = true -> split sep (sep +:+ r) = EmptyString :: split sep r.
Proof.
  intros Hsep. destruct sep as [|a sep]; [discriminate|].
  unfold split.
  change (String a sep +:+ r) with (String a (sep +:+ r)).
  cbn [split_go].
  change (String a (sep +:+ r)) with (String a sep +:+ r).
  rewrite startswith_app. f_equal.
  replace (String.length (String a sep) - 1) with (String.length sep)
    by (simpl; lia).
  apply split_go_skip.
Qed.

(** The first piece of a split, written by recursion on the text. *)
Lemma hd_split_cons (sep : string) (c : ascii) (s : string) :
  hd EmptyString (split sep (String c s)) =
  if startswith sep (String c s) then EmptyString
  else String c (hd EmptyString (split sep s)).
Proof.
  unfold split. cbn [split_go].
  destruct (startswith sep (String c s)); [reflexivity|].
  now destruct (split_go sep 0 s).
Qed.

Lemma hd_split_prefix (sep s : string) :
  startswith (hd EmptyString (split sep s)) s = true.
Proof.
  induction s as [|c s IH]; [reflexivity|].
  rewrite hd_split_cons.
  destruct (startswith sep (String c s)); [reflexivity|].
  simpl. now rewrite Ascii.eqb_refl.
Qed.

(** The first piece never starts with the separator. *)
Lemma hd_split_not_startswith (sep s : string) :
  truthy sep = true ->
  startswith sep (hd EmptyString (split sep s)) = false.
Proof.
  intros Hsep. induction s as [|c s IH].
  - simpl. rewrite startswith_nil, Hsep. reflexivity.
  - rewrite hd_split_cons.
    destruct (startswith sep (String c s)) eqn:E.
    + rewrite startswith_nil, Hsep. reflexivity.
    + destruct (startswith sep (String c (hd EmptyString (split sep s)))) eqn:E';
        [|reflexivity].
      rewrite <- E. symmetry.
      apply (startswith_trans _ _ _ E').
      simpl. rewrite Ascii.eqb_refl. apply hd_split_prefix.
Qed.

(** A separator without [a] cannot straddle the [a] that follows [c]. *)
Lemma startswith_before_char (sep c t : string) (a : ascii) :
  lacks a sep = true ->
  startswith sep (c +:+ String a t) = true -> startswith sep c = true.
Proof.
  revert c. induction sep as [|x sep IH]; intros c Hl H; [reflexivity|].
  simpl in Hl. apply andb_true_iff in Hl as [Hx Hl].
  destruct c as [|y c]; simpl in *.
  - destruct (Ascii.eqb x a); [discriminate Hx | discriminate H].
  - destruct (Ascii.eqb x y); [eauto | discriminate].
Qed.

Lemma hd_split_through (sep c t : string) (a : ascii) :
  truthy sep = true ->
  lacks a sep = true ->
  contains sep c = false ->
  exists t', hd EmptyString (split sep (c +:+ String a t)) = c +:+ String a t'.
Proof.
  intros Hsep Hl. induction c as [|y c IH]; intros Hc.
  - change (EmptyString +:+ String a t) with (String a t).
    rewrite hd_split_cons.
    destruct (startswith sep (String a t)) eqn:E.
    + apply (startswith_before_char sep EmptyString t a Hl) in E.
      rewrite startswith_nil, Hsep in E. discriminate.
    + eexists. reflexivity.
  - simpl in Hc. apply orb_false_iff in Hc as [Hs Hc].
    change (String y c +:+ String a t) with (String y (c +:+ String a t)).
    rewrite hd_split_cons.
    destruct (startswith sep (String y (c +:+ String a t))) eqn:E.
    + apply (startswith_before_char sep (String y c) t a Hl) in E.
      simpl in E, Hs. congruence.
    + destruct (IH Hc) as [t' Ht']. exists t'. now rewrite Ht'.
Qed.

Lemma hd_split_char (c t : string) (a : ascii) :
  lacks a c = true ->
  hd EmptyString (split (String a EmptyString) (c +:+ String a t)) = c.
Proof.
  induction c as [|y c IH]; intros Hl.
  - change (EmptyString +:+ String a t) with (String a t).
    rewrite hd_split_cons. simpl. now rewrite Ascii.eqb_refl.
  - simpl in Hl. apply andb_true_iff in Hl as [Hy Hl].
    change (String y c +:+ String a t) with (String y (c +:+ String a t)).
    rewrite hd_split_cons. simpl.
    rewrite Ascii.eqb_sym. destruct (Ascii.eqb y a); [discriminate|].
    simpl in IH. now rewrite (IH Hl).
Qed.

Example split_slashes :
  split "/" "https://x.com/alicew" = ["https:"; ""; "x.com"; "alicew"].
Proof. reflexivity. Qed.

Example split_redirect :
  split "/url?q=" "/url?q=a&b/url?q=c" = [""; "a&b"; "c"].
Proof. reflexivity. Qed.

Example split_trailing : split "&" "a&&b&" = ["a"; ""; "b"; ""].
Proof. reflexivity. Qed.

Example split_overlap : split "aa" "aaa" = [""; "a"].
Proof. reflexivity. Qed.

Example strip_both : strip "  a b  " = "a b".
Proof. reflexivity. Qed.

Example extract_reserved : extract_name_from_url "https://x.com/settings" = "".
Proof. reflexivity. Qed.

Example extract_other_host :
  extract_name_from_url "https://twitch.tv/someuser?ref=x" = "someuser".
Proof. reflexivity. Qed.

Example quote_plus_url :
  quote_plus "https://www.youtube.com/@a b" = "https%3A%2F%2Fwww.youtube.com%2F%40a+b".
Proof. reflexivity. Qed.

Example quote_plus_latin :
  quote_plus (String (ascii_of_nat 233) "t" +:+ String (ascii_of_nat 255) EmptyString)
  = "%C3%A9t%C3%BF".
Proof. reflexivity. Qed.

End StringFacts.

(** ** URL filters *)

Section FilterFacts.

Lemma redirect_prefix_truthy : truthy redirect_prefix = true.
Proof. reflexivity. Qed.

(** Both index operations of the redirect removal are in range. *)
Lemma unwrap_in_range (u : string) :
  startswith redirect_prefix u = true ->
  2 <= length (split redirect_prefix u) /\
  1 <= length (split "&" (nth 1 (split redirect_prefix u) EmptyString)).
Proof.
  intros H. split.
  - destruct u as [|c u]; [discriminate|].
    unfold split. cbn [split_go]. rewrite H.
    pose proof (split_go_not_nil redirect_prefix
                  (String.length redirect_prefix - 1) u) as Hn.
    destruct (split_go _ _ u); [congruence | simpl; lia].
  - pose proof (split_go_not_nil "&" 0
                  (nth 1 (split redirect_prefix u) EmptyString)) as Hn.
    unfold split. destruct (split_go _ _ _); [congruence | simpl; lia].
Qed.

Lemma nth0_hd (l : list string) : nth 0 l EmptyString = hd EmptyString l.
Proof. now destruct l. Qed.

Lemma startswith_inv (p s : string) :
  startswith p s = true -> exists r, s = p +:+ r.
Proof.
  revert s. induction p as [|a p IH]; intros s H.
  - now exists s.
  - destruct s as [|b s]; [discriminate|]. simpl in H.
    destruct (Ascii.eqb_spec a b) as [->|]; [|discriminate].
    destruct (IH _ H) as [r ->]. now exists r.
Qed.

(** What the redirect removal extracts: the text after the prefix, up to
    the next occurrence of the prefix and then up to the first [&]. *)
Lemma unwrap_prefixed (r : string) :
  unwrap (redirect_prefix +:+ r) =
  hd EmptyString (split "&" (hd EmptyString (split redirect_prefix r))).
Proof.
  unfold unwrap.
  rewrite (split_startswith _ _ redirect_prefix_truthy).
  cbn [nth]. now rewrite !nth0_hd.
Qed.

Lemma unwrap_not_prefixed (u : string) :
  startswith redirect_prefix u = true ->
  startswith redirect_prefix (unwrap u) = false.
Proof.
  intros H. destruct (startswith_inv _ _ H) as [r ->].
  rewrite unwrap_prefixed.
  destruct (startswith redirect_prefix
              (hd EmptyString (split "&" (hd EmptyString (split redirect_prefix r)))))
    eqn:E; [|reflexivity].
  rewrite <- (hd_split_not_startswith redirect_prefix r redirect_prefix_truthy).
  symmetry. apply (startswith_trans _ _ _ E), hd_split_prefix.
Qed.

Lemma remove_redirect_idem (u : string) :
  remove_redirect (remove_redirect u) = remove_redirect u.
Proof.
  unfold remove_redirect at 2 3.
  destruct (startswith redirect_prefix u) eqn:E.
  - unfold remove_redirect. now rewrite (unwrap_not_prefixed _ E).
  - unfold remove_redirect. now rewrite E.
Qed.

Lemma unwrap_verbatim (c params : string) :
  lacks "&" c = true ->
  contains redirect_prefix c = false ->
  unwrap (wrap_verbatim c params) = c.
Proof.
  intros Hamp Hpre. unfold wrap_verbatim. rewrite unwrap_prefixed.
  destruct (hd_split_through redirect_prefix c params "&"
              redirect_prefix_truthy eq_refl Hpre) as [t' ->].
  now apply hd_split_char.
Qed.

Lemma filter_youtube_idem (u : option string) :
  filter_youtube_url (filter_youtube_url u) = filter_youtube_url u.
Proof.
  destruct u as [u|]; [|reflexivity].
  unfold filter_youtube_url at 2 3.
  destruct (truthy u); cbn [negb]; [|reflexivity].
  set (v := remove_redirect u).
  destruct (contains "youtube.com" v && any_in valid_patterns v) eqn:E;
    [|reflexivity].
  unfold filter_youtube_url.
  pose proof E as E'. apply andb_true_iff in E' as [Hc _].
  rewrite (contains_truthy "youtube.com" v eq_refl Hc). cbn [negb].
  subst v. now rewrite remove_redirect_idem, E.
Qed.

(** The filters decide on the text left after redirect removal. *)
Lemma filter_twitch_spec (u : string) :
  truthy u = true ->
  filter_twitch_url (Some u) =
  if contains "twitch.tv" (remove_redirect u)
     && (4 <=? length (split "/" (remove_redirect u)))
  then Some (remove_redirect u) else None.
Proof. intros H. unfold filter_twitch_url. now rewrite H. Qed.

Lemma filter_youtube_spec (u : string) :
  truthy u = true ->
  filter_youtube_url (Some u) =
  if contains "youtube.com" (remove_redirect u)
     && any_in valid_patterns (remove_redirect u)
  then Some (remove_redirect u) else None.
Proof. intros H. unfold filter_youtube_url. now rewrite H. Qed.

Lemma filter_for_truthy (p : platform) (u clean : string) :
  filter_for p u = Some clean -> truthy clean = true.
Proof.
  destruct p; simpl;
    [unfold filter_youtube_url | unfold filter_twitch_url];
    destruct (truthy u); simpl; try discriminate;
    match goal with |- (if ?c then _ else _) = _ -> _ => destruct c eqn:E end;
    intros [= <-]; apply andb_true_iff in E as [Hc _];
    revert Hc; apply contains_truthy; reflexivity.
Qed.

(** *** Percent-encoded targets *)

Lemma lacks_contains (a : ascii) (p s : string) :
  lacks a s = true -> contains (String a p) s = false.
Proof.
  induction s as [|b s IH]; simpl; [reflexivity|].
  intros H. apply andb_true_iff in H as [Hb Hs].
  rewrite (Ascii.eqb_sym a b).
  destruct (Ascii.eqb b a); [discriminate|]. simpl. auto.
Qed.

Lemma hex_digit_unreserved (n : nat) : is_unreserved (hex_digit n) = true.
Proof. do 17 (destruct n as [|n]; [reflexivity|]). reflexivity. Qed.

(** A reserved character other than [+] and [%] does not survive the
    encoding. *)
Lemma quote_plus_lacks (a : ascii) (s : string) :
  is_unreserved a = false ->
  Ascii.eqb a "+" = false -> Ascii.eqb a "%" = false ->
  lacks a (quote_plus s) = true.
Proof.
  intros Ha Hplus Hpct.
  assert (Hne : forall c, is_unreserved c = true -> Ascii.eqb c a = false).
  { intros c Hc. destruct (Ascii.eqb_spec c a) as [->|]; congruence. }
  induction s as [|c s IH]; [reflexivity|]. cbn [quote_plus].
  destruct (is_unreserved c) eqn:Ec.
  - cbn [lacks]. now rewrite (Hne c Ec), IH.
  - assert (Hpercent : forall n rest,
              lacks a rest = true -> lacks a (percent n rest) = true).
    { intros n rest Hrest. unfold percent. cbn [lacks].
      now rewrite (Ascii.eqb_sym "%" a), Hpct,
        !(Hne _ (hex_digit_unreserved _)), Hrest. }
    destruct (Ascii.eqb c " ").
    + cbn [lacks]. now rewrite (Ascii.eqb_sym "+" a), Hplus, IH.
    + destruct (nat_of_ascii c <? 128)%nat; auto.
Qed.

(** The redirect removal gives back the encoded target, not the target. *)
Lemma unwrap_encoded (target params : string) :
  unwrap (wrap_encoded target params) = quote_plus target.
Proof.
  apply (unwrap_verbatim (quote_plus target) params).
  - now apply quote_plus_lacks.
  - apply lacks_contains. now apply quote_plus_lacks.
Qed.

(** Every channel pattern needs a slash, and the encoding leaves none:
    the wrapped form of a percent-encoded target is always rejected. *)
Lemma wrap_encoded_rejected (target params : string) :
  filter_youtube_url (Some (wrap_encoded target params)) = None.
Proof.
  rewrite (filter_youtube_spec (wrap_encoded target params) eq_refl).
  assert (Hr : remove_redirect (wrap_encoded target params) = quote_plus target).
  { unfold remove_redirect.
    replace (startswith redirect_prefix (wrap_encoded target params)) with true
      by (symmetry; apply startswith_app).
    apply unwrap_encoded. }
  rewrite Hr.
  assert (Hs : lacks "/" (quote_plus target) = true)
    by now apply quote_plus_lacks.
  unfold any_in, valid_patterns. simpl.
  rewrite !(lacks_contains "/" _ _ Hs). simpl.
  now rewrite andb_false_r.
Qed.

End FilterFacts.

(** ** Claims on the URL filters and on query construction *)

(** C4, evaluated on the code: the bare root with a trailing slash splits
    into four pieces ([https:], the empty piece, the host and the empty
    piece after the last slash), so the length test passes and the root is
    returned, not rejected; without the trailing slash it is rejected; the
    channel URL is returned unchanged. *)
Theorem C4_twitch_root_is_returned :
  split "/" "https://twitch.tv/" = ["https:"; ""; "twitch.tv"; ""] /\
  filter_twitch_url (Some "https://twitch.tv/") = Some "https://twitch.tv/" /\
  filter_twitch_url (Some "https://twitch.tv") = None /\
  filter_twitch_url (Some "https://twitch.tv/somechannel")
  = Some "https://twitch.tv/somechannel".
Proof. repeat split; reflexivity. Qed.

(** C5, counterexample: the redirect-wrapped form with a percent-encoded
    target is rejected, because the filter strips the wrapper without
    decoding, while the clean form of the same channel URL is accepted. *)
Lemma C5_encoded_redirect_differs :
  wrap_encoded "https://www.youtube.com/@alice" "sa=U"
  = "/url?q=https%3A%2F%2Fwww.youtube.com%2F%40alice&sa=U" /\
  filter_youtube_url (Some (wrap_encoded "https://www.youtube.com/@alice" "sa=U"))
  = None /\
  filter_youtube_url (Some "https://www.youtube.com/@alice")
  = Some "https://www.youtube.com/@alice" /\
  filter_youtube_url (Some (wrap_encoded "https://www.youtube.com/@alice" "sa=U"))
  <> filter_youtube_url (Some "https://www.youtube.com/@alice").
Proof. repeat split; try reflexivity. discriminate. Qed.

(** C5, as amended: [filter_youtube_url] is idempotent on every input, and
    for every target without [&] and without the redirect prefix, the
    redirect-wrapped form that embeds the target as it is gives the same
    result as the target itself. *)
Theorem C5_youtube_idempotent_verbatim_redirect :
  (forall u : option string,
      filter_youtube_url (filter_youtube_url u) = filter_youtube_url u) /\
  (forall c params : string,
      lacks "&" c = true ->
      contains redirect_prefix c = false ->
      filter_youtube_url (Some (wrap_verbatim c params))
      = filter_youtube_url (Some c)).
Proof.
  split; [exact filter_youtube_idem|].
  intros c params Hamp Hpre.
  assert (Hnp : startswith redirect_prefix c = false).
  { destruct c; simpl in Hpre; [reflexivity|].
    now apply orb_false_iff in Hpre as [? _]. }
  assert (Hw : remove_redirect (wrap_verbatim c params) = c).
  { unfold remove_redirect.
    replace (startswith redirect_prefix (wrap_verbatim c params)) with true
      by (symmetry; apply startswith_app).
    now apply unwrap_verbatim. }
  assert (Hc : remove_redirect c = c)
    by (unfold remove_redirect; now rewrite Hnp).
  rewrite (filter_youtube_spec (wrap_verbatim c params) eq_refl), Hw.
  destruct (truthy c) eqn:Ht.
  - now rewrite (filter_youtube_spec c Ht), Hc.
  - destruct c; [reflexivity | discriminate].
Qed.

Lemma C5_youtube_idempotent_verbatim_redirect_witness :
  filter_youtube_url
    (Some (wrap_verbatim "https://www.youtube.com/@alice" "sa=U&ved=2"))
  = filter_youtube_url (Some "https://www.youtube.com/@alice").
Proof.
  apply (proj2 C5_youtube_idempotent_verbatim_redirect
           "https://www.youtube.com/@alice" "sa=U&ved=2");
    reflexivity.
Defined.

(** C9: for the identity alice / Alice W / https://x.com/alicew the name
    taken from the URL is alicew, the four candidates are generated in the
    stated order, and the query list is the first three of them. *)
Theorem C9_alice_queries :
  extract_name_from_url "https://x.com/alicew" = "alicew" /\
  candidate_queries "alice" "Alice W" "https://x.com/alicew"
  = [quoted "alice"; quoted "Alice W"; "alice Alice W"; quoted "alicew"] /\
  build_queries "alice" "Alice W" "https://x.com/alicew"
  = [quoted "alice"; quoted "Alice W"; "alice Alice W"].
Proof. repeat split; reflexivity. Qed.

(** C10, counterexample: a string that starts with the redirect prefix is
    cut down to its wrapped target before the tests, so containing the
    platform name (and four pieces, or a channel pattern) is not enough. *)
Lemma C10_redirect_prefixed_rejected :
  (contains "twitch.tv" "/url?q=a&b=twitch.tv/x/y" = true /\
   4 <= length (split "/" "/url?q=a&b=twitch.tv/x/y") /\
   filter_twitch_url (Some "/url?q=a&b=twitch.tv/x/y") = None) /\
  (contains "youtube.com" "/url?q=a&b=youtube.com/c/x" = true /\
   any_in valid_patterns "/url?q=a&b=youtube.com/c/x" = true /\
   filter_youtube_url (Some "/url?q=a&b=youtube.com/c/x") = None).
Proof. repeat split; first [reflexivity | simpl; lia]. Qed.

(** C10, as amended: for every string that does not start with the
    redirect prefix, containing [twitch.tv] anywhere together with at least
    four slash-separated pieces makes [filter_twitch_url] return it, and
    containing [youtube.com] anywhere together with one of the four channel
    patterns makes [filter_youtube_url] return it; the host is not looked
    at. *)
Theorem C10_substring_containment (u : string) :
  startswith redirect_prefix u = false ->
  (contains "twitch.tv" u = true ->
   4 <= length (split "/" u) ->
   filter_twitch_url (Some u) = Some u) /\
  (contains "youtube.com" u = true ->
   any_in valid_patterns u = true ->
   filter_youtube_url (Some u) = Some u).
Proof.
  intros Hnp.
  assert (Hr : remove_redirect u = u) by (unfold remove_redirect; now rewrite Hnp).
  split.
  - intros Hc Hlen.
    rewrite filter_twitch_spec, Hr, Hc
      by (revert Hc; apply contains_truthy; reflexivity).
    apply Nat.leb_le in Hlen. now rewrite Hlen.
  - intros Hc Hp.
    rewrite filter_youtube_spec, Hr, Hc, Hp
      by (revert Hc; apply contains_truthy; reflexivity).
    reflexivity.
Qed.

Lemma C10_substring_containment_witness :
  filter_twitch_url (Some "https://evil.example/twitch.tv/x")
  = Some "https://evil.example/twitch.tv/x" /\
  filter_youtube_url (Some "https://evil.example/youtube.com/c/x")
  = Some "https://evil.example/youtube.com/c/x".
Proof.
  split.
  - apply (proj1 (C10_substring_containment
                    "https://evil.example/twitch.tv/x" eq_refl));
      [reflexivity | simpl; lia].
  - apply (proj2 (C10_substring_containment
                    "https://evil.example/youtube.com/c/x" eq_refl));
      reflexivity.
Defined.

(** ** The matching loop *)

Section ChannelFinderFacts.

Variable World : Type.
Variable search_with_requests :
  string -> platform -> World -> option (list SearchResult) * World.
Variable enhanced_name_match : string -> string -> string -> option bool.
Variable calculate_match_score : string -> string -> string -> string -> option Z.
Variables username profile_name : string.

Local Abbreviation scan_results :=
  (scan_results enhanced_name_match calculate_match_score username profile_name).
Local Abbreviation query_loop :=
  (query_loop World search_with_requests enhanced_name_match
     calculate_match_score username profile_name).
Local Abbreviation platform_pass :=
  (platform_pass World search_with_requests enhanced_name_match
     calculate_match_score username profile_name).
Local Abbreviation find_channels_for_user :=
  (find_channels_for_user World search_with_requests enhanced_name_match
     calculate_match_score username profile_name).

Lemma floor50_ge (s : Z) : (50 <= floor50 s)%Z.
Proof. unfold floor50. destruct (Z.ltb_spec s 50); lia. Qed.

Lemma floor50_low (s : Z) : (s < 50)%Z -> floor50 s = 50%Z.
Proof. unfold floor50. destruct (Z.ltb_spec s 50); lia. Qed.

Lemma floor50_high (s : Z) : (50 <= s)%Z -> floor50 s = s.
Proof. unfold floor50. destruct (Z.ltb_spec s 50); lia. Qed.

Lemma scan_results_found (p : platform) (rs : list SearchResult) (b : BestMatch) :
  scan_results p rs = Found b -> recorded b.
Proof.
  induction rs as [|r rs IH]; simpl; [discriminate|].
  destruct (filter_for p (sr_url r)) as [clean|]; [|exact IH].
  destruct (truthy clean) eqn:Ht; simpl; [|exact IH].
  destruct (enhanced_name_match clean username profile_name) as [[|]|];
    [|exact IH|discriminate].
  destruct (calculate_match_score username profile_name (sr_title r) clean)
    as [s|]; [|discriminate].
  intros [= <-]. split; simpl; [apply floor50_ge | eauto].
Qed.

(** Results that were all passed over do not change what follows. *)
Lemma scan_results_app (p : platform) (pre rest : list SearchResult) :
  scan_results p pre = NotFound ->
  scan_results p (pre ++ rest) = scan_results p rest.
Proof.
  induction pre as [|r pre IH]; simpl; [reflexivity|].
  destruct (filter_for p (sr_url r)) as [clean|]; [|exact IH].
  destruct (truthy clean); simpl; [|exact IH].
  destruct (enhanced_name_match clean username profile_name) as [[|]|];
    [|exact IH|discriminate].
  destruct (calculate_match_score username profile_name (sr_title r) clean);
    discriminate.
Qed.

Lemma scan_results_rejected (p : platform) (pre : list SearchResult) :
  Forall (fun x => filter_for p (sr_url x) = None) pre ->
  scan_results p pre = NotFound.
Proof.
  induction 1 as [|r pre Hr _ IH]; simpl; [reflexivity|].
  now rewrite Hr.
Qed.

(** The first accepted result is the one recorded, with the floored score. *)
Lemma scan_results_accept (p : platform) (r : SearchResult)
    (post : list SearchResult) (clean : string) (s : Z) :
  filter_for p (sr_url r) = Some clean ->
  enhanced_name_match clean username profile_name = Some true ->
  calculate_match_score username profile_name (sr_title r) clean = Some s ->
  scan_results p (r :: post)
  = Found {| score := floor50 s; title := Some (sr_title r); url := Some clean |}.
Proof.
  intros Hf He Hs. simpl.
  rewrite Hf, (filter_for_truthy _ _ _ Hf), He, Hs. reflexivity.
Qed.

Lemma assigns_app (e1 e2 : list event) :
  assigns (e1 ++ e2) = assigns e1 ++ assigns e2.
Proof. apply omap_app. Qed.

Lemma searches_app (e1 e2 : list event) :
  searches (e1 ++ e2) = searches e1 ++ searches e2.
Proof. apply omap_app. Qed.

Lemma assigns_search (q : string) (p : platform) (evs : list event) :
  assigns (EvSearch q p :: evs) = assigns evs.
Proof. reflexivity. Qed.

Lemma assigns_sleep (evs : list event) : assigns (EvSleep :: evs) = assigns evs.
Proof. reflexivity. Qed.

Lemma assigns_assign (b : BestMatch) (evs : list event) :
  assigns (EvAssign b :: evs) = b :: assigns evs.
Proof. reflexivity. Qed.

Lemma searches_search (q : string) (p : platform) (evs : list event) :
  searches (EvSearch q p :: evs) = (q, p) :: searches evs.
Proof. reflexivity. Qed.

Lemma searches_sleep (evs : list event) : searches (EvSleep :: evs) = searches evs.
Proof. reflexivity. Qed.

Lemma searches_assign (b : BestMatch) (evs : list event) :
  searches (EvAssign b :: evs) = searches evs.
Proof. reflexivity. Qed.

Create Rewrite HintDb events.
#[local] Hint Rewrite assigns_app assigns_search assigns_sleep assigns_assign
  searches_app searches_search searches_sleep searches_assign : events.

(** Shape of a pass: either nothing was assigned and [best_match] is the
    one the loop started from, or exactly one recorded match was assigned
    and it is the final [best_match]. *)
Lemma query_loop_shape (p : platform) (queries : list string) :
  forall (best : BestMatch) (w : World) b evs w',
    query_loop p queries best w = (b, evs, w') ->
    (b = best /\ assigns evs = []) \/ (recorded b /\ assigns evs = [b]).
Proof.
  induction queries as [|q rest IH]; intros best w b evs w' H; simpl in H.
  - injection H as <- <- <-. now left.
  - destruct (search_with_requests q p w) as [r w1].
    assert (Hcont : forall b evs w',
      (let '(b', evs', w'0) := query_loop p rest best w1 in
       (b', [EvSearch q p] ++ evs', w'0)) = (b, evs, w') ->
      (b = best /\ assigns evs = []) \/ (recorded b /\ assigns evs = [b])).
    { clear H. intros b0 evs0 w0 H.
      destruct (query_loop p rest best w1) as [[b2 evs2] w2] eqn:E.
      injection H as <- <- <-.
      destruct (IH _ _ _ _ _ E) as [[-> Ha]|[Hr Ha]]; [left|right];
        (split; [first [reflexivity | assumption]|]);
        autorewrite with events; exact Ha. }
    assert (Hafter : forall b evs w',
      (if (50 <=? score best)%Z then (best, [EvSearch q p], w1)
       else let '(b', evs', w'0) := query_loop p rest best w1 in
            (b', [EvSearch q p] ++ EvSleep :: evs', w'0)) = (b, evs, w') ->
      (b = best /\ assigns evs = []) \/ (recorded b /\ assigns evs = [b])).
    { clear H. intros b0 evs0 w0 H.
      destruct (50 <=? score best)%Z.
      - injection H as <- <- <-. now left.
      - destruct (query_loop p rest best w1) as [[b2 evs2] w2] eqn:E.
        injection H as <- <- <-.
        destruct (IH _ _ _ _ _ E) as [[-> Ha]|[Hr Ha]]; [left|right];
          (split; [first [reflexivity | assumption]|]);
          autorewrite with events; exact Ha. }
    destruct r as [[|r0 rs]|].
    + exact (Hafter _ _ _ H).
    + destruct (scan_results p (r0 :: rs)) as [bf| |] eqn:Es.
      * pose proof (scan_results_found _ _ _ Es) as Hrec.
        destruct Hrec as [Hge Hurl].
        apply Z.leb_le in Hge. rewrite Hge in H.
        injection H as <- <- <-. right.
        split; [split; [now apply Z.leb_le | assumption] | reflexivity].
      * destruct (50 <=? score best)%Z eqn:Eb.
        -- injection H as <- <- <-. now left.
        -- exact (Hafter _ _ _ H).
      * exact (Hcont _ _ _ H).
    + exact (Hcont _ _ _ H).
Qed.

(** A pass whose first search yields a recorded match consists of that one
    search and that one assignment. *)
Lemma platform_pass_first_query (p : platform) (q : string) (qs : list string)
    (w w1 : World) (rs : list SearchResult) (b : BestMatch) :
  search_with_requests q p w = (Some rs, w1) ->
  scan_results p rs = Found b ->
  platform_pass p (q :: qs) w = (b, [EvSearch q p; EvAssign b], w1).
Proof.
  intros Hs Hf. unfold platform_pass. simpl. rewrite Hs.
  destruct rs as [|r0 rs]; [discriminate|].
  rewrite Hf.
  destruct (scan_results_found _ _ _ Hf) as [Hge _].
  apply Z.leb_le in Hge. now rewrite Hge.
Qed.

Lemma platform_pass_shape (p : platform) (queries : list string) (w : World) :
  forall b evs w',
    platform_pass p queries w = (b, evs, w') ->
    (b = best_match_init /\ assigns evs = []) \/ (recorded b /\ assigns evs = [b]).
Proof. intros b evs w'. apply query_loop_shape. Qed.

Lemma store_best_other (p p' : platform) (b : BestMatch) (c : Channels) :
  p <> p' ->
  channel_url p' (store_best p b c) = channel_url p' c /\
  channel_score p' (store_best p b c) = channel_score p' c.
Proof.
  intros Hne. unfold store_best.
  destruct (50 <=? score b)%Z; [|now split].
  destruct p, p'; try congruence; now split.
Qed.

Lemma store_best_recorded (p : platform) (b : BestMatch) (c : Channels) :
  (50 <= score b)%Z ->
  channel_url p (store_best p b c) = url b /\
  channel_score p (store_best p b c) = score b.
Proof.
  intros Hge. apply Z.leb_le in Hge. unfold store_best. rewrite Hge.
  now destruct p.
Qed.

Lemma store_best_field (p : platform) (b : BestMatch) :
  b = best_match_init \/ recorded b ->
  field_ok (channel_url p (store_best p b results_init))
           (channel_score p (store_best p b results_init)).
Proof.
  intros [->|[Hge (clean & Hu & Ht)]].
  - right. now destruct p.
  - left. destruct (store_best_recorded p b results_init Hge) as [-> ->].
    eauto.
Qed.

Lemma find_channels_fields (url : string) (w : World) :
  forall c evs w',
    find_channels_for_user url w = (c, evs, w') ->
    field_ok (youtube_url c) (youtube_score c) /\
    field_ok (twitch_url c) (twitch_score c).
Proof.
  intros c evs w'. unfold find_channels_for_user.
  destruct (platform_pass youtube (build_queries username profile_name url) w)
    as [[b1 e1] w1] eqn:E1.
  destruct (platform_pass twitch (build_queries username profile_name url) w1)
    as [[b2 e2] w2] eqn:E2.
  intros [= <- <- <-].
  assert (H1 : b1 = best_match_init \/ recorded b1)
    by (destruct (platform_pass_shape _ _ _ _ _ _ E1) as [[? _]|[? _]]; auto).
  assert (H2 : b2 = best_match_init \/ recorded b2)
    by (destruct (platform_pass_shape _ _ _ _ _ _ E2) as [[? _]|[? _]]; auto).
  pose proof (store_best_field youtube b1 H1) as F1.
  split.
  - destruct (store_best_other twitch youtube b2
                (store_best youtube b1 results_init)) as [Hu Hs];
      [discriminate|].
    simpl in Hu, Hs. rewrite Hu, Hs. exact F1.
  - clear F1. destruct H2 as [->|[Hge (clean & Hu & Ht)]].
    + right. unfold store_best at 1 3. simpl.
      unfold store_best. destruct (50 <=? score b1)%Z; now split.
    + left.
      destruct (store_best_recorded twitch b2
                  (store_best youtube b1 results_init) Hge) as [Eu Es].
      simpl in Eu, Es. rewrite Eu, Es. eauto.
Qed.

(** ** Claims on the matching loop *)

(** C6: a pass starts from score 0 and no URL; the successive values of
    [best_match] have non-decreasing scores, and the last of them is the
    [best_match] the pass ends with. *)
Theorem C6_best_match_monotone (p : platform) (queries : list string) (w : World) :
  score best_match_init = 0%Z /\ url best_match_init = None /\
  Sorted Z.le (map score (history (platform_pass p queries w).1.2)) /\
  last (history (platform_pass p queries w).1.2)
  = Some (platform_pass p queries w).1.1.
Proof.
  destruct (platform_pass p queries w) as [[b evs] w'] eqn:E. simpl.
  unfold history.
  destruct (platform_pass_shape _ _ _ _ _ _ E) as [[-> ->]|[[Hge _] ->]].
  - repeat split; repeat constructor.
  - repeat split; repeat constructor. simpl. lia.
Qed.

End ChannelFinderFacts.

(** ** The batch *)

Section BatchFacts.

Variable World : Type.
Variable find_channels : cell -> cell -> cell -> World -> option Channels * World.
Variable report_progress : Z -> nat -> cell -> bool.

Local Abbreviation process_row := (process_row World find_channels report_progress).
Local Abbreviation process_rows := (process_rows World find_channels report_progress).
Local Abbreviation process_users_with_real_logic :=
  (process_users_with_real_logic World find_channels report_progress).
Local Abbreviation row_ready := (row_ready report_progress).

Lemma has_required_get (row : record) :
  has_required row = true ->
  exists u p l f,
    get "username" row = Some u /\ get "profile_name" row = Some p /\
    get "url" row = Some l /\ get "followers" row = Some f.
Proof.
  unfold has_required, required_columns. simpl.
  rewrite !andb_true_iff, !bool_decide_eq_true.
  intros ([u Hu] & [p Hp] & [l Hl] & [f Hf] & _). eauto 10.
Qed.

Lemma result_row_agrees (rin : record) (u p l f : cell) (w : World) :
  get "username" rin = Some u -> get "profile_name" rin = Some p ->
  get "url" rin = Some l -> get "followers" rin = Some f ->
  row_agrees find_channels rin (result_row u p l f (find_channels u p l w).1).
Proof.
  intros Hu Hp Hl Hf. unfold row_agrees. split; [|split].
  - now destruct (find_channels u p l w).1.
  - intros col Hin. simpl in Hin.
    destruct Hin as [<-|[<-|[<-|[<-|[]]]]];
      destruct (find_channels u p l w).1; simpl; congruence.
  - exists u, p, l, w. repeat split; try assumption.
    destruct (find_channels u p l w).1; repeat split.
Qed.

(** One row: with the four required columns, an integer label and progress
    calls that return, the body returns a row that agrees with its
    input. *)
Lemma process_row_ok (total : nat) (i : label) (row : record) (w : World) :
  row_ready total (i, row) ->
  exists rout w', process_row total i row w = (Ok rout, w') /\
                  row_agrees find_channels row rout.
Proof.
  intros [H (z & un & Hi & Hun & Hrep)]. cbn [fst snd] in *. subst i.
  destruct (has_required_get _ H) as (u & p & l & f & Hu & Hp & Hl & Hf).
  assert (un = u) by congruence. subst un.
  unfold Batch.process_row. rewrite Hu, Hp, Hl. cbn [label_succ]. rewrite Hrep.
  pose proof (result_row_agrees row u p l f w Hu Hp Hl Hf) as Ha.
  destruct (find_channels u p l w) as [ch w1]. rewrite Hf. eauto.
Qed.

Lemma process_rows_ok (total : nat) (df : list (label * record)) :
  Forall (row_ready total) df ->
  forall w, exists out w',
    process_rows total df w = (Ok out, w') /\
    Forall2 (row_agrees find_channels) (map snd df) out.
Proof.
  induction 1 as [|[i row] df Hrow _ IH]; intros w.
  - exists [], w. split; [reflexivity | constructor].
  - destruct (process_row_ok total i row w Hrow) as (rout & w1 & Hr & Ha).
    destruct (IH w1) as (out & w2 & Hrs & Hall).
    exists (rout :: out), w2. cbn [Batch.process_rows map snd]. rewrite Hr, Hrs.
    split; [reflexivity | now constructor].
Qed.

(** Every row of a returned table was built by [result_row] from the
    finder's outcome on some identity. *)
Lemma process_rows_rows (total : nat) (df : list (label * record)) :
  forall w out w',
    process_rows total df w = (Ok out, w') ->
    Forall (fun rout => exists u p l f w0,
                rout = result_row u p l f (find_channels u p l w0).1) out.
Proof.
  induction df as [|[i row] df IH]; intros w out w' H; cbn [Batch.process_rows] in H.
  - injection H as <- <-. constructor.
  - destruct (process_row total i row w) as [[rout|] w1] eqn:Er; [|discriminate].
    destruct (process_rows total df w1) as [[outs|] w2] eqn:Ers; [|discriminate].
    injection H as <- <-. constructor; [|eauto].
    unfold Batch.process_row in Er.
    destruct (get "username" row) as [u|]; [|discriminate].
    destruct (get "profile_name" row) as [p|]; [|discriminate].
    destruct (get "url" row) as [l|]; [|discriminate].
    destruct (label_succ i) as [k|]; [|discriminate].
    destruct (report_progress k total u); [|discriminate].
    destruct (find_channels u p l w) as [ch w1'] eqn:Ef.
    destruct (get "followers" row) as [f|]; [|discriminate].
    injection Er as <- <-. exists u, p, l, f, w. now rewrite Ef.
Qed.

Lemma field_ok_iff (u : option string) (s : Z) :
  field_ok u s -> (or_empty u <> EmptyString <-> (50 <= s)%Z).
Proof.
  intros [(clean & -> & Ht & Hge)|[-> ->]]; simpl.
  - rewrite Ht. split; [auto|]. intros _ ->. discriminate.
  - split; [congruence | lia].
Qed.

(** ** Claims on the batch *)

(** C1: whenever the finder only returns what [find_channels_for_user]
    computes (and may raise instead), every row of the returned table, the
    rows of the [except] branch included, has each platform's url field
    non-empty exactly when that platform's score field is at least 50. *)
Theorem C1_url_iff_score
    (search_with_requests :
       string -> platform -> World -> option (list SearchResult) * World)
    (enhanced_name_match : string -> string -> string -> option bool)
    (calculate_match_score : string -> string -> string -> string -> option Z)
    (df : list (label * record)) (out : list record) (w w' : World) :
  resolves_with search_with_requests enhanced_name_match calculate_match_score
    find_channels ->
  process_users_with_real_logic df w = (Ok out, w') ->
  Forall url_iff_score out.
Proof.
  intros Hres Hrun.
  eapply Forall_impl; [exact (process_rows_rows (length df) df w out w' Hrun)|].
  intros rout (u & p & l & f & w0 & ->). cbv beta. unfold url_iff_score.
  destruct (find_channels u p l w0) as [[c|] w1] eqn:Ef; simpl.
  - destruct (Hres _ _ _ _ _ _ Ef) as (un & pn & ur & wi & Hc).
    destruct (find_channels_for_user World search_with_requests
                enhanced_name_match calculate_match_score un pn ur wi)
      as [[c' evs] wo] eqn:Efc.
    simpl in Hc. subst c'.
    destruct (find_channels_fields _ _ _ _ _ _ _ _ _ _ _ Efc) as [Fy Ft].
    exists (or_empty (youtube_url c)), (youtube_score c),
           (or_empty (twitch_url c)), (twitch_score c).
    split; [repeat split|].
    split; now apply field_ok_iff.
  - exists EmptyString, 0%Z, EmptyString, 0%Z.
    split; [repeat split|].
    split; (split; [congruence | lia]).
Qed.

(** C8, as amended: for every input table whose rows have the four required
    columns and an integer index label, and whose progress calls return
    (as they do on the default index 0, 1, ... with a progress bar that
    accepts the values up to 1), and whatever the finder returns or raises,
    the batch returns a table with exactly one row per input row, in input
    order; each output row has the columns username, profile_name, url,
    followers, youtube_url, youtube_score, twitch_url, twitch_score, copies
    the four required cells of its input row, and has empty urls and zero
    scores when the finder raised on that row. *)
Theorem C8_one_row_per_input (df : list (label * record)) (w : World) :
  Forall (row_ready (length df)) df ->
  exists out w',
    process_users_with_real_logic df w = (Ok out, w') /\
    length out = length df /\
    Forall2 (row_agrees find_channels) (map snd df) out.
Proof.
  intros Hreq.
  destruct (process_rows_ok (length df) df Hreq w) as (out & w' & Hrun & Hall).
  exists out, w'. split; [exact Hrun|]. split; [|exact Hall].
  rewrite <- (Forall2_length _ _ _ Hall). now rewrite length_map.
Qed.

End BatchFacts.

(** On the default index every progress value lies between 0 and 1. *)
Lemma range_index_ready (report_progress : Z -> nat -> cell -> bool)
    (rows : list record) :
  (forall k n username,
      (0 < k <= Z.of_nat n)%Z -> report_progress k n username = true) ->
  Forall (fun row => has_required row = true) rows ->
  Forall (row_ready report_progress (length rows)) (range_index rows).
Proof.
  intros Hrep Hreq. apply Forall_lookup. intros i [l row] Hl.
  unfold range_index in Hl. rewrite list_lookup_imap in Hl.
  destruct (rows !! i) as [row0|] eqn:Er; [|discriminate].
  injection Hl as <- <-.
  pose proof (lookup_lt_Some _ _ _ Er) as Hlt.
  pose proof (proj1 (Forall_lookup _ _) Hreq i row0 Er) as Hrow. cbv beta in Hrow.
  split; [exact Hrow|]. cbn [fst snd].
  destruct (has_required_get row0 Hrow) as (u & _ & _ & _ & Hu & _).
  exists (Z.of_nat i), u. split; [reflexivity|]. split; [exact Hu|].
  apply Hrep. lia.
Qed.

Lemma range_index_length (rows : list record) :
  length (range_index rows) = length rows.
Proof. apply length_imap. Qed.

Lemma range_index_rows (rows : list record) : map snd (range_index rows) = rows.
Proof.
  apply list_eq. intros i. unfold range_index.
  rewrite list_lookup_fmap, list_lookup_imap.
  now destruct (rows !! i).
Qed.

Lemma demo_report_accepts (k : Z) (n : nat) (username : cell) :
  (0 < k <= Z.of_nat n)%Z -> demo_report k n username = true.
Proof.
  intros H. unfold demo_report. apply andb_true_iff.
  split; apply Z.leb_le; lia.
Qed.

Lemma demo_find_resolves :
  resolves_with demo_search demo_match (demo_score 30) demo_find.
Proof.
  intros u p l w c w' H. unfold demo_find in H.
  destruct u as [un| |]; try discriminate.
  destruct p as [pn| |]; try discriminate.
  destruct l as [ur| |]; try discriminate.
  injection H as <- _. now exists un, pn, ur, w.
Qed.

Lemma C1_url_iff_score_witness :
  exists out w',
    process_users_with_real_logic nat demo_find demo_report (range_index demo_df) 0
    = (Ok out, w') /\
    length out = 2 /\
    Forall url_iff_score out.
Proof.
  eexists _, _. split; [vm_compute; reflexivity|].
  split; [reflexivity|].
  eapply (C1_url_iff_score nat demo_find demo_report demo_search demo_match
            (demo_score 30) (range_index demo_df) _ 0 _ demo_find_resolves).
  vm_compute. reflexivity.
Defined.

(** C8, counterexample: a fifth input column is not carried over, the
    output row being built from the four required columns only; and a
    table with the four columns and a string index label gives no table at
    all, [i + 1] raising before the [try]. *)
Lemma C8_extra_column_dropped :
  (exists rin rout w',
      demo_df_extra = [rin] /\
      process_users_with_real_logic nat demo_find demo_report
        (range_index demo_df_extra) 0 = (Ok [rout], w') /\
      get "bio" rin = Some (CStr "streamer") /\
      get "bio" rout = None /\
      map fst rout = output_columns) /\
  Forall (fun ir : label * record => has_required ir.2 = true) demo_df_labelled /\
  (process_users_with_real_logic nat demo_find demo_report demo_df_labelled 0).1
  = Raise.
Proof.
  split; [|split; [repeat constructor | reflexivity]].
  eexists _, _, _. split; [reflexivity|].
  split; [vm_compute; reflexivity|].
  repeat split.
Qed.

Lemma C8_one_row_per_input_witness :
  exists out w',
    process_users_with_real_logic nat demo_find demo_report (range_index demo_df) 0
    = (Ok out, w') /\
    length out = length (range_index demo_df) /\
    Forall2 (row_agrees demo_find) (map snd (range_index demo_df)) out.
Proof.
  apply (C8_one_row_per_input nat demo_find demo_report (range_index demo_df) 0).
  rewrite range_index_length.
  apply (range_index_ready demo_report demo_df demo_report_accepts).
  repeat constructor.
Defined.

(** ** Proxy rotation *)

Module ProxyFacts.

Import SyncProxyManager.

Lemma rotate_failed (fuel : nat) (pm : t) :
  failed_proxies (rotate fuel pm).2 = failed_proxies pm.
Proof.
  revert pm. induction fuel as [|fuel IH]; intros pm; simpl; [reflexivity|].
  destruct (proxies pm !! current_index pm) as [proxy|]; [|reflexivity].
  destruct (decide (http proxy ∈ failed_proxies pm)); [|reflexivity].
  now rewrite IH.
Qed.

Lemma rotate_proxies (fuel : nat) (pm : t) :
  proxies (rotate fuel pm).2 = proxies pm.
Proof.
  revert pm. induction fuel as [|fuel IH]; intros pm; simpl; [reflexivity|].
  destruct (proxies pm !! current_index pm) as [proxy|]; [|reflexivity].
  destruct (decide (http proxy ∈ failed_proxies pm)); [|reflexivity].
  now rewrite IH.
Qed.

(** A proxy handed out is in the list and is not marked failed. *)
Lemma rotate_returns (fuel : nat) (pm : t) (proxy : proxy) :
  (rotate fuel pm).1 = Ok (Some proxy) ->
  proxy ∈ proxies pm /\ http proxy ∉ failed_proxies pm.
Proof.
  revert pm. induction fuel as [|fuel IH]; intros pm; simpl; [discriminate|].
  destruct (proxies pm !! current_index pm) as [cand|] eqn:El; [|discriminate].
  destruct (decide (http cand ∈ failed_proxies pm)) as [Hin|Hout].
  - intros H. apply IH in H. exact H.
  - simpl. intros [= <-]. split; [|exact Hout].
    apply list_elem_of_lookup. eauto.
Qed.

Lemma get_next_proxy_failed (pm : t) :
  failed_proxies (get_next_proxy pm).2 = failed_proxies pm.
Proof.
  unfold get_next_proxy. destruct (proxies pm); [reflexivity|].
  apply rotate_failed.
Qed.

Lemma get_next_proxy_returns (pm : t) (proxy : proxy) :
  (get_next_proxy pm).1 = Ok (Some proxy) ->
  proxy ∈ proxies pm /\ http proxy ∉ failed_proxies pm.
Proof.
  unfold get_next_proxy. destruct (proxies pm) eqn:E; [discriminate|].
  rewrite <- E. apply rotate_returns.
Qed.

Lemma mark_proxy_failed_grows (proxy : option proxy) (pm : t) :
  failed_proxies pm ⊆ failed_proxies (mark_proxy_failed proxy pm).
Proof. destruct proxy; simpl; set_solver. Qed.

(** A key that is marked stays marked, and no call hands out a proxy with
    that key. *)
Lemma run_excludes (calls : list call) :
  forall (pm : t) (key : string),
    key ∈ failed_proxies pm ->
    Forall (fun r => forall proxy, r = Ok (Some proxy) -> http proxy <> key)
           (run calls pm).1.
Proof.
  induction calls as [|c calls IH]; intros pm key Hkey; [constructor|].
  destruct c as [|proxy]; simpl.
  - destruct (get_next_proxy pm) as [r pm1] eqn:E1.
    assert (Hkey1 : key ∈ failed_proxies pm1).
    { change pm1 with (r, pm1).2. rewrite <- E1, get_next_proxy_failed.
      exact Hkey. }
    specialize (IH pm1 key Hkey1).
    destruct (run calls pm1) as [rs pm2]. simpl in *.
    constructor; [|exact IH].
    intros proxy -> Heq.
    destruct (get_next_proxy_returns pm proxy) as [_ Hout];
      [now rewrite E1|].
    now rewrite Heq in Hout.
  - apply IH. now apply mark_proxy_failed_grows.
Qed.

(** The rotation index stays in range, so no call raises. *)
Lemma rotate_wf (fuel : nat) (pm : t) :
  wf pm -> proxies pm <> [] ->
  wf (rotate fuel pm).2 /\ (rotate fuel pm).1 <> Raise.
Proof.
  revert pm. induction fuel as [|fuel IH]; intros pm Hwf Hne; simpl;
    [split; [exact Hwf | discriminate]|].
  destruct Hwf as [Hnil|Hlt]; [contradiction|].
  destruct (lookup_lt_is_Some_2 _ _ Hlt) as [cand ->].
  assert (Hwf' : wf {| proxies := proxies pm;
                       current_index := (current_index pm + 1) mod length (proxies pm);
                       failed_proxies := failed_proxies pm |}).
  { right. simpl. apply Nat.mod_upper_bound.
    destruct (proxies pm); [contradiction | simpl; lia]. }
  destruct (decide (http cand ∈ failed_proxies pm)).
  - now apply IH.
  - split; [exact Hwf' | discriminate].
Qed.

Lemma get_next_proxy_wf (pm : t) :
  wf pm -> wf (get_next_proxy pm).2 /\ (get_next_proxy pm).1 <> Raise.
Proof.
  intros Hwf. unfold get_next_proxy.
  destruct (proxies pm) eqn:E; [split; [exact Hwf | discriminate]|].
  rewrite <- E. apply rotate_wf; [exact Hwf | congruence].
Qed.

Lemma new_wf (shuffled : list proxy) : wf (new shuffled).
Proof.
  unfold wf, new. simpl. destruct shuffled; [now left | right; simpl; lia].
Qed.

Lemma run_wf (calls : list call) :
  forall pm, wf pm -> Forall (fun r => r <> Raise) (run calls pm).1.
Proof.
  induction calls as [|c calls IH]; intros pm Hwf; [constructor|].
  destruct c as [|proxy]; simpl.
  - destruct (get_next_proxy_wf pm Hwf) as [Hwf1 Hok].
    destruct (get_next_proxy pm) as [r pm1]. simpl in *.
    specialize (IH pm1 Hwf1).
    destruct (run calls pm1) as [rs pm2]. now constructor.
  - apply IH. destruct proxy; exact Hwf.
Qed.

(** Before it is marked the proxy is handed out; after, the rotation goes
    past it on every cycle. *)
Example rotation_skips_failed :
  let a := make_proxy "10.0.0.1" "80" in
  let b := make_proxy "10.0.0.2" "80" in
  (run [GetNext; MarkFailed (Some a); GetNext; GetNext; GetNext] (new [a; b])).1
  = [Ok (Some a); Ok (Some b); Ok (Some b); Ok (Some b)] /\
  (run [MarkFailed (Some a); MarkFailed (Some b); GetNext] (new [a; b])).1
  = [Ok None].
Proof. split; vm_compute; reflexivity. Qed.

(** C7: after [mark_proxy_failed(e)], whatever calls follow on the pool,
    no [get_next_proxy] returns [e], nor any proxy with the key of [e]. *)
Theorem C7_failed_proxy_never_returned (pm : t) (e : proxy) (calls : list call) :
  Forall (fun r => r <> Ok (Some e) /\
                   forall proxy, r = Ok (Some proxy) -> http proxy <> http e)
         (run calls (mark_proxy_failed (Some e) pm)).1.
Proof.
  eapply Forall_impl.
  - apply (run_excludes calls (mark_proxy_failed (Some e) pm) (http e)).
    simpl. set_solver.
  - intros r Hr. split; [|exact Hr].
    intros ->. now apply (Hr e).
Qed.

End ProxyFacts.

(** * Further properties *)

(** ** The proxy pool *)

Module PoolFacts.

Import SyncProxyManager PoolState.

Lemma at_index_self (pm : t) : at_index pm (current_index pm) = pm.
Proof. now destruct pm. Qed.

Lemma step_mod (i j n : nat) : ((i + 1) mod n + j) mod n = (i + S j) mod n.
Proof.
  destruct n as [|n]; [simpl; lia|].
  rewrite Nat.Div0.add_mod_idemp_l. f_equal. lia.
Qed.

Lemma get_next_proxy_rotate (pm : t) :
  proxies pm <> [] -> get_next_proxy pm = rotate (length (proxies pm)) pm.
Proof.
  intros Hne. unfold get_next_proxy.
  destruct (proxies pm) eqn:E; [congruence | reflexivity].
Qed.

(** One call on a pool whose current proxy is not marked. *)
Lemma get_next_proxy_current (pm : t) (proxy : proxy) :
  proxies pm !! current_index pm = Some proxy ->
  http proxy ∉ failed_proxies pm ->
  get_next_proxy pm
  = (Ok (Some proxy),
     at_index pm ((current_index pm + 1) mod length (proxies pm))).
Proof.
  intros Hl Hok.
  assert (Hlen : 0 < length (proxies pm)).
  { apply lookup_lt_Some in Hl. lia. }
  rewrite get_next_proxy_rotate by (intros E; rewrite E in Hlen; simpl in Hlen; lia).
  destruct (length (proxies pm)) as [|k] eqn:En; [lia|].
  cbn [rotate]. rewrite Hl.
  destruct (decide (http proxy ∈ failed_proxies pm)); [contradiction|].
  unfold at_index. now rewrite En.
Qed.

(** [k] calls on a pool without marked proxies hand out the list from the
    current index on, wrapping around. *)
Lemma run_rotation (k : nat) :
  forall pm : t,
    current_index pm < length (proxies pm) ->
    (forall proxy, proxy ∈ proxies pm -> http proxy ∉ failed_proxies pm) ->
    run (replicate k GetNext) pm
    = (map (fun j => Ok (proxies pm !! ((current_index pm + j) mod length (proxies pm))))
           (seq 0 k),
       at_index pm ((current_index pm + k) mod length (proxies pm))).
Proof.
  induction k as [|k IH]; intros pm Hlt Hok.
  - simpl. rewrite Nat.add_0_r, Nat.mod_small by exact Hlt.
    now rewrite at_index_self.
  - destruct (lookup_lt_is_Some_2 _ _ Hlt) as [proxy Hp].
    assert (Hin : proxy ∈ proxies pm) by (apply list_elem_of_lookup; eauto).
    cbn [replicate run].
    rewrite (get_next_proxy_current pm proxy Hp (Hok _ Hin)).
    set (n := length (proxies pm)).
    assert (Hn : (current_index pm + 1) mod n < n)
      by (apply Nat.mod_upper_bound; unfold n; lia).
    rewrite (IH (at_index pm ((current_index pm + 1) mod n)) Hn Hok).
    cbn [at_index proxies current_index failed_proxies]. fold n.
    f_equal; [|now rewrite step_mod].
    cbn [seq map]. f_equal.
    + now rewrite Nat.add_0_r, Nat.mod_small, Hp by exact Hlt.
    + rewrite <- seq_shift, map_map.
      apply map_ext. intros j. now rewrite step_mod.
Qed.

(** X1: on a freshly loaded pool of [n] proxies, [n] calls of
    [get_next_proxy] return the proxies of the list in order, each once,
    and leave the pool as it was loaded. *)
Theorem X1_round_robin_cycle (shuffled : list proxy) :
  run (replicate (length shuffled) GetNext) (new shuffled)
  = (map (fun proxy => Ok (Some proxy)) shuffled, new shuffled).
Proof.
  destruct shuffled as [|p0 l] eqn:E; [reflexivity|]. rewrite <- E.
  rewrite run_rotation; cbn [new proxies current_index failed_proxies].
  - f_equal.
    + apply list_eq. intros j.
      rewrite !list_lookup_fmap.
      destruct (decide (j < length shuffled)) as [Hj|Hj].
      * rewrite lookup_seq_lt by exact Hj. cbn.
        rewrite Nat.mod_small by exact Hj.
        now destruct (lookup_lt_is_Some_2 _ _ Hj) as [x ->].
      * rewrite lookup_seq_ge by lia.
        now rewrite lookup_ge_None_2 by lia.
    + rewrite Nat.Div0.mod_same. reflexivity.
  - rewrite E. simpl. lia.
  - intros proxy _. set_solver.
Qed.

Example rotation_wraps :
  let a := make_proxy "10.0.0.1" "80" in
  let b := make_proxy "10.0.0.2" "81" in
  make_proxy "10.0.0.1" "80"
  = {| http := "http://10.0.0.1:80"; https := "http://10.0.0.1:80" |} /\
  (run (replicate 5 GetNext) (new [a; b])).1
  = [Ok (Some a); Ok (Some b); Ok (Some a); Ok (Some b); Ok (Some a)].
Proof. split; vm_compute; reflexivity. Qed.

(** A rotation over marked proxies only moves the index. *)
Lemma rotate_all_failed (fuel : nat) :
  forall pm : t,
    current_index pm < length (proxies pm) ->
    (forall proxy, proxy ∈ proxies pm -> http proxy ∈ failed_proxies pm) ->
    rotate fuel pm
    = (Ok None, at_index pm ((current_index pm + fuel) mod length (proxies pm))).
Proof.
  induction fuel as [|fuel IH]; intros pm Hlt Hall.
  - simpl. rewrite Nat.add_0_r, Nat.mod_small by exact Hlt.
    now rewrite at_index_self.
  - destruct (lookup_lt_is_Some_2 _ _ Hlt) as [cand Hc].
    assert (Hin : cand ∈ proxies pm) by (apply list_elem_of_lookup; eauto).
    cbn [rotate]. rewrite Hc.
    destruct (decide (http cand ∈ failed_proxies pm)) as [_|Hno];
      [|destruct (Hno (Hall _ Hin))].
    set (n := length (proxies pm)).
    assert (Hn : (current_index pm + 1) mod n < n)
      by (apply Nat.mod_upper_bound; unfold n; lia).
    rewrite (IH {| proxies := proxies pm;
                   current_index := (current_index pm + 1) mod n;
                   failed_proxies := failed_proxies pm |} Hn Hall).
    cbn [at_index proxies current_index failed_proxies]. fold n.
    now rewrite step_mod.
Qed.

Lemma get_next_proxy_all_failed (pm : t) :
  wf pm ->
  (forall proxy, proxy ∈ proxies pm -> http proxy ∈ failed_proxies pm) ->
  get_next_proxy pm = (Ok None, pm).
Proof.
  intros [Hnil|Hlt] Hall.
  - unfold get_next_proxy. now rewrite Hnil.
  - rewrite get_next_proxy_rotate
      by (intros E; rewrite E in Hlt; simpl in Hlt; lia).
    rewrite (rotate_all_failed _ pm Hlt Hall).
    rewrite <- (Nat.mul_1_l (length (proxies pm))) at 1.
    rewrite Nat.Div0.mod_add, Nat.mod_small by exact Hlt.
    now rewrite at_index_self.
Qed.

(** X2: when every proxy of the list is marked failed, [get_next_proxy]
    returns no proxy and, after its full cycle, leaves the pool exactly as
    it was. *)
Theorem X2_all_failed_gives_none (pm : t) :
  wf pm ->
  (forall proxy, proxy ∈ proxies pm -> http proxy ∈ failed_proxies pm) ->
  get_next_proxy pm = (Ok None, pm).
Proof. apply get_next_proxy_all_failed. Qed.

Lemma X2_all_failed_gives_none_witness :
  let a := make_proxy "10.0.0.1" "80" in
  let pm := mark_proxy_failed (Some a) (new [a]) in
  get_next_proxy pm = (Ok None, pm).
Proof.
  intros a pm. apply (X2_all_failed_gives_none pm).
  - right. simpl. lia.
  - intros proxy Hin. apply list_elem_of_singleton in Hin as ->.
    simpl. set_solver.
Defined.

(** A rotation that hands out nothing has met a marked proxy at each of
    its steps. *)
Lemma rotate_none_visited (fuel : nat) :
  forall (pm pm' : t),
    rotate fuel pm = (Ok None, pm') ->
    forall j, j < fuel ->
      exists cand,
        proxies pm !! ((current_index pm + j) mod length (proxies pm)) = Some cand /\
        http cand ∈ failed_proxies pm.
Proof.
  induction fuel as [|fuel IH]; intros pm pm' H j Hj; [lia|].
  cbn [rotate] in H.
  destruct (proxies pm !! current_index pm) as [cand|] eqn:Hc; [|discriminate].
  pose proof (lookup_lt_Some _ _ _ Hc) as Hlt.
  destruct (decide (http cand ∈ failed_proxies pm)) as [Hin|]; [|discriminate].
  destruct j as [|j].
  - exists cand. now rewrite Nat.add_0_r, Nat.mod_small by exact Hlt.
  - destruct (IH _ _ H j ltac:(lia)) as (c & Hl & Hf).
    cbn [proxies current_index failed_proxies] in Hl, Hf.
    rewrite step_mod in Hl. eauto.
Qed.

(** X3: on a pool whose index is in range, [get_next_proxy] returns no
    proxy exactly when every proxy of the list is marked failed; as long
    as one is not, some proxy is handed out. *)
Theorem X3_none_iff_all_failed (pm : t) :
  wf pm ->
  ((get_next_proxy pm).1 = Ok None <->
   forall proxy, proxy ∈ proxies pm -> http proxy ∈ failed_proxies pm).
Proof.
  intros Hwf. split.
  - intros Hnone proxy Hin.
    destruct Hwf as [Hnil|Hlt]; [rewrite Hnil in Hin; inversion Hin|].
    rewrite get_next_proxy_rotate in Hnone
      by (intros E; rewrite E in Hlt; simpl in Hlt; lia).
    destruct (rotate (length (proxies pm)) pm) as [r pm'] eqn:Er.
    simpl in Hnone. subst r.
    apply list_elem_of_lookup in Hin as [m Hm].
    pose proof (lookup_lt_Some _ _ _ Hm) as Hmlt.
    set (n := length (proxies pm)) in *.
    destruct (rotate_none_visited _ _ _ Er ((m + n - current_index pm) mod n))
      as (cand & Hl & Hf); [apply Nat.mod_upper_bound; lia|].
    fold n in Hl.
    rewrite Nat.Div0.add_mod_idemp_r in Hl.
    replace (current_index pm + (m + n - current_index pm)) with (m + 1 * n)
      in Hl by lia.
    rewrite Nat.Div0.mod_add, Nat.mod_small in Hl by exact Hmlt.
    congruence.
  - intros Hall. now rewrite (get_next_proxy_all_failed pm Hwf Hall).
Qed.

Lemma X3_none_iff_all_failed_witness :
  let a := make_proxy "10.0.0.1" "80" in
  let b := make_proxy "10.0.0.2" "81" in
  let pm := mark_proxy_failed (Some a) (new [a; b]) in
  (get_next_proxy pm).1 = Ok (Some b) /\
  ((get_next_proxy pm).1 = Ok None <->
   forall proxy, proxy ∈ proxies pm -> http proxy ∈ failed_proxies pm).
Proof.
  intros a b pm. split; [vm_compute; reflexivity|].
  apply (X3_none_iff_all_failed pm). right. simpl. lia.
Defined.

(** X4: a pool made by [new] never raises: whatever calls it receives, the
    rotation index stays inside the list and every [get_next_proxy]
    returns a proxy or none. *)
Theorem X4_loaded_pool_never_raises (shuffled : list proxy) (calls : list call) :
  Forall (fun r => r <> Raise) (run calls (new shuffled)).1 /\
  wf (run calls (new shuffled)).2.
Proof.
  split; [apply ProxyFacts.run_wf, ProxyFacts.new_wf|].
  generalize (ProxyFacts.new_wf shuffled). generalize (new shuffled).
  induction calls as [|c calls IH]; intros pm Hwf; [exact Hwf|].
  destruct c as [|proxy]; simpl.
  - destruct (ProxyFacts.get_next_proxy_wf pm Hwf) as [Hwf1 _].
    destruct (get_next_proxy pm) as [r pm1]. simpl in Hwf1.
    specialize (IH pm1 Hwf1). now destruct (run calls pm1).
  - apply IH. destruct proxy; exact Hwf.
Qed.

Lemma get_next_proxy_proxies (pm : t) :
  proxies (get_next_proxy pm).2 = proxies pm.
Proof.
  unfold get_next_proxy. destruct (proxies pm) eqn:E; [exact E|].
  rewrite <- E. apply ProxyFacts.rotate_proxies.
Qed.

(** X5: after any sequence of calls the rotation list is the one loaded
    (a failed proxy is never removed from it), and the failure set is the
    initial one plus exactly the keys of the proxies that were marked. *)
Theorem X5_pool_after_calls (calls : list call) (pm : t) :
  proxies (run calls pm).2 = proxies pm /\
  failed_proxies (run calls pm).2 = failed_proxies pm ∪ marked calls.
Proof.
  revert pm. induction calls as [|c calls IH]; intros pm.
  - simpl. split; [reflexivity | now rewrite (right_id_L ∅ (∪))].
  - destruct c as [|[proxy|]]; cbn [run marked].
    + pose proof (get_next_proxy_proxies pm) as Hp.
      pose proof (ProxyFacts.get_next_proxy_failed pm) as Hf.
      destruct (get_next_proxy pm) as [r pm1]. cbn [snd] in Hp, Hf.
      destruct (IH pm1) as [IHp IHf].
      destruct (run calls pm1) as [rs pm2]. cbn [snd] in *.
      split; [now rewrite IHp | now rewrite IHf, Hf].
    + destruct (IH (mark_proxy_failed (Some proxy) pm)) as [IHp IHf].
      split; [exact IHp|]. rewrite IHf.
      cbn [mark_proxy_failed failed_proxies].
      now rewrite (assoc_L (∪)), (comm_L (∪) (failed_proxies pm)).
    + apply IH.
Qed.

End PoolFacts.

(** ** The URL filters *)

Section FilterMore.

Lemma startswith_char_false (a c : ascii) (s : string) :
  Ascii.eqb c a = false -> startswith (String a EmptyString) (String c s) = false.
Proof. intros H. simpl. now rewrite Ascii.eqb_sym, H. Qed.

(** Splitting on a character that does not occur gives the text itself. *)
Lemma split_lacks (a : ascii) (s : string) :
  lacks a s = true -> split (String a EmptyString) s = [s].
Proof.
  induction s as [|c s IH]; [reflexivity|].
  cbn [lacks]. intros H. apply andb_true_iff in H as [Hc Hs].
  apply negb_true_iff in Hc.
  unfold split in *. cbn [split_go].
  rewrite (startswith_char_false a c s Hc), (IH Hs). reflexivity.
Qed.

Lemma remove_redirect_not_prefixed (u : string) :
  startswith redirect_prefix (remove_redirect u) = false.
Proof.
  unfold remove_redirect.
  destruct (startswith redirect_prefix u) eqn:E;
    [now apply unwrap_not_prefixed | exact E].
Qed.

Lemma filter_twitch_idem (u : option string) :
  filter_twitch_url (filter_twitch_url u) = filter_twitch_url u.
Proof.
  destruct u as [u|]; [|reflexivity].
  unfold filter_twitch_url at 2 3.
  destruct (truthy u); cbn [negb]; [|reflexivity].
  set (v := remove_redirect u).
  destruct (contains "twitch.tv" v && (4 <=? length (split "/" v))) eqn:E;
    [|reflexivity].
  pose proof E as E'. apply andb_true_iff in E' as [Hc _].
  rewrite (filter_twitch_spec v (contains_truthy "twitch.tv" v eq_refl Hc)).
  subst v. now rewrite remove_redirect_idem, E.
Qed.

(** X6: [filter_twitch_url] is idempotent: filtering its own result
    changes nothing, for every input including none and the empty string. *)
Theorem X6_filter_twitch_idempotent (u : option string) :
  filter_twitch_url (filter_twitch_url u) = filter_twitch_url u.
Proof. apply filter_twitch_idem. Qed.

(** X7: whatever a filter returns is non-empty, contains the platform
    name together with a channel pattern (YouTube) or at least four
    slash-separated pieces (Twitch), never starts with the redirect prefix,
    and is either the input itself or the target cut out of its redirect
    wrapper. *)
Theorem X7_filter_results (u v : string) :
  (filter_youtube_url (Some u) = Some v ->
   truthy v = true /\ contains "youtube.com" v = true /\
   any_in valid_patterns v = true /\
   startswith redirect_prefix v = false /\ (v = u \/ v = unwrap u)) /\
  (filter_twitch_url (Some u) = Some v ->
   truthy v = true /\ contains "twitch.tv" v = true /\
   4 <= length (split "/" v) /\
   startswith redirect_prefix v = false /\ (v = u \/ v = unwrap u)).
Proof.
  assert (Hor : remove_redirect u = u \/ remove_redirect u = unwrap u)
    by (unfold remove_redirect; destruct (startswith redirect_prefix u); auto).
  split; intros H.
  - destruct (truthy u) eqn:Ht; [|now destruct u].
    rewrite (filter_youtube_spec u Ht) in H.
    destruct (contains "youtube.com" (remove_redirect u)
              && any_in valid_patterns (remove_redirect u)) eqn:E;
      [|discriminate].
    injection H as <-. apply andb_true_iff in E as [Hc Hp].
    repeat split; auto using remove_redirect_not_prefixed.
    exact (contains_truthy "youtube.com" _ eq_refl Hc).
  - destruct (truthy u) eqn:Ht; [|now destruct u].
    rewrite (filter_twitch_spec u Ht) in H.
    destruct (contains "twitch.tv" (remove_redirect u)
              && (4 <=? length (split "/" (remove_redirect u)))) eqn:E;
      [|discriminate].
    injection H as <-. apply andb_true_iff in E as [Hc Hp].
    apply Nat.leb_le in Hp.
    repeat split; auto using remove_redirect_not_prefixed.
    exact (contains_truthy "twitch.tv" _ eq_refl Hc).
Qed.

Lemma X7_filter_results_witness :
  truthy "https://www.twitch.tv/alice" = true /\
  contains "twitch.tv" "https://www.twitch.tv/alice" = true /\
  4 <= length (split "/" "https://www.twitch.tv/alice") /\
  startswith redirect_prefix "https://www.twitch.tv/alice" = false /\
  ("https://www.twitch.tv/alice" = "/url?q=https://www.twitch.tv/alice&sa=U" \/
   "https://www.twitch.tv/alice"
   = unwrap "/url?q=https://www.twitch.tv/alice&sa=U").
Proof.
  apply (proj2 (X7_filter_results "/url?q=https://www.twitch.tv/alice&sa=U"
                  "https://www.twitch.tv/alice")).
  reflexivity.
Defined.

(** X8: a redirect wrapper around a percent-encoded target is rejected by
    both filters, for every target: the wrapper is removed but the target
    is not decoded, so no slash is left for a channel pattern or for four
    pieces. *)
Theorem X8_encoded_redirect_rejected (target params : string) :
  filter_youtube_url (Some (wrap_encoded target params)) = None /\
  filter_twitch_url (Some (wrap_encoded target params)) = None.
Proof.
  split; [apply wrap_encoded_rejected|].
  rewrite (filter_twitch_spec (wrap_encoded target params) eq_refl).
  assert (Hr : remove_redirect (wrap_encoded target params) = quote_plus target).
  { unfold remove_redirect.
    replace (startswith redirect_prefix (wrap_encoded target params)) with true
      by (symmetry; apply startswith_app).
    apply unwrap_encoded. }
  rewrite Hr, (split_lacks "/" (quote_plus target))
    by now apply quote_plus_lacks.
  cbn [length Nat.leb]. now rewrite andb_false_r.
Qed.

(** X9: for every target without [&] and without the redirect prefix,
    [filter_twitch_url] gives the same result on the redirect wrapper that
    embeds the target as it is and on the target itself. *)
Theorem X9_twitch_verbatim_redirect (c params : string) :
  lacks "&" c = true ->
  contains redirect_prefix c = false ->
  filter_twitch_url (Some (wrap_verbatim c params)) = filter_twitch_url (Some c).
Proof.
  intros Hamp Hpre.
  assert (Hnp : startswith redirect_prefix c = false).
  { destruct c; simpl in Hpre; [reflexivity|].
    now apply orb_false_iff in Hpre as [? _]. }
  assert (Hw : remove_redirect (wrap_verbatim c params) = c).
  { unfold remove_redirect.
    replace (startswith redirect_prefix (wrap_verbatim c params)) with true
      by (symmetry; apply startswith_app).
    now apply unwrap_verbatim. }
  assert (Hc : remove_redirect c = c)
    by (unfold remove_redirect; now rewrite Hnp).
  rewrite (filter_twitch_spec (wrap_verbatim c params) eq_refl), Hw.
  destruct (truthy c) eqn:Ht.
  - now rewrite (filter_twitch_spec c Ht), Hc.
  - destruct c; [reflexivity | discriminate].
Qed.

Lemma X9_twitch_verbatim_redirect_witness :
  filter_twitch_url (Some (wrap_verbatim "https://www.twitch.tv/alice" "sa=U"))
  = filter_twitch_url (Some "https://www.twitch.tv/alice").
Proof.
  apply (X9_twitch_verbatim_redirect "https://www.twitch.tv/alice" "sa=U");
    reflexivity.
Defined.

End FilterMore.

(** ** Name extraction and query construction *)

Section NameFacts.

Lemma lacks_nil_contains (a : ascii) (s : string) :
  contains (String a EmptyString) s = false -> lacks a s = true.
Proof.
  induction s as [|c s IH]; [reflexivity|].
  cbn [contains lacks]. intros H. apply orb_false_iff in H as [Hs Hc].
  simpl in Hs. rewrite Ascii.eqb_sym.
  destruct (Ascii.eqb a c); [discriminate|]. simpl. auto.
Qed.

Lemma lacks_prefix (a : ascii) (h s : string) :
  startswith h s = true -> lacks a s = true -> lacks a h = true.
Proof.
  revert s. induction h as [|x h IH]; intros s Hp Hs; [reflexivity|].
  destruct s as [|y s]; [discriminate|]. simpl in Hp.
  destruct (Ascii.eqb_spec x y) as [->|]; [|discriminate].
  cbn [lacks] in *. apply andb_true_iff in Hs as [Hy Hs].
  rewrite Hy. simpl. eauto.
Qed.

(** No piece of a split on a character contains that character. *)
Lemma split_pieces_lack (a : ascii) (s : string) :
  Forall (fun piece => lacks a piece = true) (split (String a EmptyString) s).
Proof.
  unfold split. induction s as [|c s IH]; [repeat constructor|].
  cbn [split_go]. destruct (Ascii.eqb c a) eqn:Ec.
  - apply Ascii.eqb_eq in Ec as ->.
    replace (startswith (String a EmptyString) (String a s)) with true
      by (simpl; now rewrite Ascii.eqb_refl).
    constructor; [reflexivity | exact IH].
  - rewrite (startswith_char_false a c s Ec).
    destruct (split_go (String a EmptyString) 0 s) as [|h t].
    + repeat constructor. cbn [lacks]. now rewrite Ec.
    + inversion IH as [|? ? Hh Ht]; subst.
      constructor; [|exact Ht]. cbn [lacks]. now rewrite Ec, Hh.
Qed.

(** The other pieces keep lacking what the text lacks. *)
Lemma split_pieces_keep (a b : ascii) (s : string) :
  lacks b s = true ->
  Forall (fun piece => lacks b piece = true) (split (String a EmptyString) s).
Proof.
  unfold split. induction s as [|c s IH]; intros Hs; [repeat constructor|].
  cbn [lacks] in Hs. apply andb_true_iff in Hs as [Hc Hs].
  specialize (IH Hs). cbn [split_go].
  destruct (startswith (String a EmptyString) (String c s)).
  - constructor; [reflexivity | exact IH].
  - destruct (split_go (String a EmptyString) 0 s) as [|h t].
    + repeat constructor. cbn [lacks]. now rewrite Hc.
    + inversion IH as [|? ? Hh Ht]; subst.
      constructor; [|exact Ht]. cbn [lacks]. now rewrite Hc, Hh.
Qed.

Lemma Forall_nth0 (P : string -> Prop) (l : list string) :
  P EmptyString -> Forall P l -> P (nth 0 l EmptyString).
Proof. intros H0 H. destruct H; assumption. Qed.

Lemma Forall_last_seg (P : string -> Prop) (l : list string) :
  P EmptyString -> Forall P l -> P (last_seg l).
Proof.
  intros H0 H. unfold last_seg. induction H as [|x l Hx Hl IH]; [exact H0|].
  destruct l; [exact Hx | exact IH].
Qed.

Lemma drop_query_lacks (p : string) : lacks "?" (drop_query p) = true.
Proof.
  unfold drop_query. destruct (contains "?" p) eqn:E.
  - apply Forall_nth0; [reflexivity | apply split_pieces_lack].
  - now apply lacks_nil_contains.
Qed.

Lemma drop_query_keeps (b : ascii) (p : string) :
  lacks b p = true -> lacks b (drop_query p) = true.
Proof.
  intros H. unfold drop_query. destruct (contains "?" p); [|exact H].
  apply Forall_nth0; [reflexivity | now apply split_pieces_keep].
Qed.

Lemma remove_char_lacks (c : ascii) (s : string) :
  lacks c (remove_char c s) = true.
Proof.
  induction s as [|x s IH]; [reflexivity|]. cbn [remove_char].
  destruct (Ascii.eqb x c) eqn:E; [exact IH|].
  cbn [lacks]. now rewrite E, IH.
Qed.

Lemma remove_char_keeps (b c : ascii) (s : string) :
  lacks b s = true -> lacks b (remove_char c s) = true.
Proof.
  induction s as [|x s IH]; [reflexivity|]. cbn [lacks remove_char].
  intros H. apply andb_true_iff in H as [Hx Hs].
  destruct (Ascii.eqb x c); [auto|]. cbn [lacks]. now rewrite Hx, IH.
Qed.

Lemma remove_char_id (c : ascii) (s : string) :
  lacks c s = true -> remove_char c s = s.
Proof.
  induction s as [|x s IH]; [reflexivity|]. cbn [lacks remove_char].
  intros H. apply andb_true_iff in H as [Hx Hs].
  apply negb_true_iff in Hx. now rewrite Hx, IH.
Qed.

Lemma lstrip_keeps (b : ascii) (s : string) :
  lacks b s = true -> lacks b (lstrip s) = true.
Proof.
  induction s as [|x s IH]; [reflexivity|]. cbn [lstrip].
  intros H. destruct (is_space x); [|exact H].
  cbn [lacks] in H. apply andb_true_iff in H as [_ Hs]. auto.
Qed.

Lemma rstrip_keeps (b : ascii) (s : string) :
  lacks b s = true -> lacks b (rstrip s) = true.
Proof.
  induction s as [|x s IH]; [reflexivity|]. cbn [lacks rstrip].
  intros H. apply andb_true_iff in H as [Hx Hs]. specialize (IH Hs).
  destruct (rstrip s) as [|y r].
  - destruct (is_space x); [reflexivity|]. cbn [lacks]. now rewrite Hx.
  - cbn [lacks] in *. now rewrite Hx, IH.
Qed.

Lemma strip_keeps (b : ascii) (s : string) :
  lacks b s = true -> lacks b (strip s) = true.
Proof. intros H. unfold strip. now apply rstrip_keeps, lstrip_keeps. Qed.

(** *** [strip] is idempotent *)

Lemma lstrip_tight (s : string) : left_tight (lstrip s).
Proof.
  induction s as [|x s IH]; [exact I|]. cbn [lstrip].
  destruct (is_space x) eqn:E; [exact IH | exact E].
Qed.

Lemma lstrip_id (s : string) : left_tight s -> lstrip s = s.
Proof. destruct s as [|x s]; [reflexivity|]. simpl. now intros ->. Qed.

Lemma rstrip_tight (s : string) : left_tight s -> left_tight (rstrip s).
Proof.
  destruct s as [|x s]; [exact id|]. cbn [left_tight rstrip]. intros Hx.
  destruct (rstrip s); [now rewrite Hx | exact Hx].
Qed.

Lemma rstrip_idem (s : string) : rstrip (rstrip s) = rstrip s.
Proof.
  induction s as [|x s IH]; [reflexivity|]. cbn [rstrip].
  destruct (rstrip s) as [|y r] eqn:E.
  - destruct (is_space x) eqn:Ex; [reflexivity|]. simpl. now rewrite Ex.
  - cbn [rstrip]. cbn [rstrip] in IH. now rewrite IH.
Qed.

Lemma strip_idem (s : string) : strip (strip s) = strip s.
Proof.
  unfold strip.
  rewrite (lstrip_id (rstrip (lstrip s))) by apply rstrip_tight, lstrip_tight.
  apply rstrip_idem.
Qed.

(** X10: whatever the URL, the extracted name contains no slash, no
    question mark and no at-sign, and has no surrounding whitespace. *)
Theorem X10_extracted_name_is_clean (url : string) :
  lacks "/" (extract_name_from_url url) = true /\
  lacks "?" (extract_name_from_url url) = true /\
  lacks "@" (extract_name_from_url url) = true /\
  strip (extract_name_from_url url) = extract_name_from_url url.
Proof.
  unfold extract_name_from_url.
  destruct (contains "x.com" url || contains "twitter.com" url).
  - pose proof (split_pieces_lack "/" url) as Hparts.
    induction Hparts as [|part rest Hpart Hrest IH]; [now repeat split|].
    cbn [scan_parts]. destruct rest as [|next rest']; [now repeat split|].
    destruct (mem part twitter_hosts); [|exact IH].
    destruct (negb (mem (remove_char "@" (drop_query next)) reserved_paths));
      [|exact IH].
    inversion Hrest as [|? ? Hnext _]; subst.
    repeat split.
    + now apply strip_keeps, remove_char_keeps, drop_query_keeps.
    + apply strip_keeps, remove_char_keeps, drop_query_lacks.
    + apply strip_keeps, remove_char_lacks.
    + apply strip_idem.
  - set (path := if contains "/" url then last_seg (split "/" url) else url).
    assert (Hpath : lacks "/" path = true).
    { unfold path. destruct (contains "/" url) eqn:E.
      - apply Forall_last_seg; [reflexivity | apply split_pieces_lack].
      - now apply lacks_nil_contains. }
    destruct (truthy (strip (remove_char "@" (drop_query path)))
              && (0 <? String.length (strip (remove_char "@" (drop_query path)))));
      [|now repeat split].
    repeat split.
    + now apply strip_keeps, remove_char_keeps, drop_query_keeps.
    + apply strip_keeps, remove_char_keeps, drop_query_lacks.
    + apply strip_keeps, remove_char_lacks.
    + apply strip_idem.
Qed.

Lemma contains_app_l (sub a b : string) :
  contains sub a = true -> contains sub (a +:+ b) = true.
Proof.
  induction a as [|x a IH].
  - simpl. rewrite orb_false_r. intros H.
    destruct sub; [|discriminate]. now destruct b.
  - rewrite append_cons. cbn [contains]. intros H.
    apply orb_true_iff in H as [H|H]; apply orb_true_iff; [left|right; auto].
    destruct (startswith_inv _ _ H) as [r Hr].
    rewrite <- append_cons, Hr.
    replace ((sub +:+ r) +:+ b) with (sub +:+ (r +:+ b)).
    + apply startswith_app.
    + clear. induction sub as [|c sub IH]; [reflexivity|].
      now rewrite !append_cons, IH.
Qed.

(** Splitting on a character cuts at its first occurrence. *)
Lemma split_char_cons (a : ascii) (pre rest : string) :
  lacks a pre = true ->
  split (String a EmptyString) (pre +:+ String a rest)
  = pre :: split (String a EmptyString) rest.
Proof.
  unfold split. induction pre as [|c pre IH]; intros H.
  - change (EmptyString +:+ String a rest) with (String a rest).
    cbn [split_go]. simpl startswith. now rewrite Ascii.eqb_refl.
  - cbn [lacks] in H. apply andb_true_iff in H as [Hc Hp].
    apply negb_true_iff in Hc.
    rewrite append_cons. cbn [split_go].
    rewrite (startswith_char_false a c _ Hc), (IH Hp). reflexivity.
Qed.

Lemma drop_query_id (p : string) : lacks "?" p = true -> drop_query p = p.
Proof.
  intros H. unfold drop_query. now rewrite (lacks_contains "?" EmptyString p H).
Qed.

(** The pieces of a profile URL on one of the two hosts. *)
Lemma split_profile (host name : string) :
  lacks "/" host = true -> lacks "/" name = true ->
  split "/" ("https://" +:+ host +:+ String "/" name)
  = ["https:"; EmptyString; host; name].
Proof.
  intros Hh Hn.
  change ("https://" +:+ host +:+ String "/" name)
    with ("https:" +:+ String "/" (EmptyString +:+ String "/"
            (host +:+ String "/" name))).
  rewrite !split_char_cons by (reflexivity || assumption).
  now rewrite (split_lacks "/" name Hn).
Qed.

Lemma scan_profile (host name : string) :
  mem host twitter_hosts = true ->
  remove_char "@" (drop_query name) = name ->
  mem name reserved_paths = false ->
  strip name = name ->
  scan_parts ["https:"; EmptyString; host; name] = Some name.
Proof.
  intros Hh Hclean Hres Hstrip. cbn [scan_parts].
  replace (mem "https:" twitter_hosts) with false by reflexivity.
  replace (mem EmptyString twitter_hosts) with false by reflexivity.
  rewrite Hh, Hclean, Hres. cbn [negb]. now rewrite Hstrip.
Qed.

(** X11: for a profile URL [https://x.com/<name>] or
    [https://twitter.com/<name>] whose name has no slash, question mark,
    at-sign or surrounding whitespace and is not a reserved path, the
    extracted name is that name. *)
Theorem X11_profile_url_name (name : string) :
  lacks "/" name = true -> lacks "?" name = true -> lacks "@" name = true ->
  strip name = name ->
  mem name reserved_paths = false ->
  extract_name_from_url ("https://x.com/" +:+ name) = name /\
  extract_name_from_url ("https://twitter.com/" +:+ name) = name.
Proof.
  intros Hs Hq Ha Hstrip Hres.
  assert (Hclean : remove_char "@" (drop_query name) = name)
    by now rewrite (drop_query_id name Hq), remove_char_id.
  split; unfold extract_name_from_url.
  - replace (contains "x.com" ("https://x.com/" +:+ name)) with true
      by (symmetry; now apply (contains_app_l "x.com" "https://x.com/" name)).
    cbn [orb].
    change ("https://x.com/" +:+ name)
      with ("https://" +:+ "x.com" +:+ String "/" name).
    rewrite (split_profile "x.com" name eq_refl Hs).
    now rewrite (scan_profile "x.com" name eq_refl Hclean Hres Hstrip).
  - replace (contains "twitter.com" ("https://twitter.com/" +:+ name)) with true
      by (symmetry;
          now apply (contains_app_l "twitter.com" "https://twitter.com/" name)).
    rewrite orb_true_r.
    change ("https://twitter.com/" +:+ name)
      with ("https://" +:+ "twitter.com" +:+ String "/" name).
    rewrite (split_profile "twitter.com" name eq_refl Hs).
    now rewrite (scan_profile "twitter.com" name eq_refl Hclean Hres Hstrip).
Qed.

Lemma X11_profile_url_name_witness :
  extract_name_from_url ("https://x.com/" +:+ "alicew") = "alicew" /\
  extract_name_from_url ("https://twitter.com/" +:+ "alicew") = "alicew".
Proof. apply (X11_profile_url_name "alicew"); reflexivity. Defined.

Lemma scan_parts_no_host (parts : list string) :
  Forall (fun part => mem part twitter_hosts = false) parts ->
  scan_parts parts = None.
Proof.
  induction 1 as [|part rest Hp _ IH]; [reflexivity|].
  cbn [scan_parts]. destruct rest; [reflexivity|]. now rewrite Hp.
Qed.

(** X12: a URL that contains [x.com] or [twitter.com] somewhere, but has
    no slash-separated piece equal to one of the two host names (a [www.]
    or [mobile.] host, or another site whose name ends alike), yields the
    empty name. *)
Theorem X12_host_must_be_a_piece (url : string) :
  contains "x.com" url || contains "twitter.com" url = true ->
  Forall (fun part => mem part twitter_hosts = false) (split "/" url) ->
  extract_name_from_url url = EmptyString.
Proof.
  intros Hc Hparts. unfold extract_name_from_url.
  now rewrite Hc, (scan_parts_no_host _ Hparts).
Qed.

Lemma X12_host_must_be_a_piece_witness :
  extract_name_from_url "https://www.x.com/alicew" = EmptyString /\
  extract_name_from_url "https://netflix.com/alicew" = EmptyString.
Proof.
  split.
  - apply (X12_host_must_be_a_piece "https://www.x.com/alicew");
      [reflexivity|].
    change (Forall (fun part => mem part twitter_hosts = false)
              ["https:"; EmptyString; "www.x.com"; "alicew"]).
    repeat constructor.
  - apply (X12_host_must_be_a_piece "https://netflix.com/alicew");
      [reflexivity|].
    change (Forall (fun part => mem part twitter_hosts = false)
              ["https:"; EmptyString; "netflix.com"; "alicew"]).
    repeat constructor.
Defined.

Lemma reserved_clean (r : string) :
  mem r reserved_paths = true ->
  lacks "/" r = true /\ lacks "?" r = true /\ lacks "@" r = true.
Proof.
  unfold mem, reserved_paths. cbn [existsb]. intros H.
  do 12 (apply orb_true_iff in H as [H|H];
         [apply String.eqb_eq in H; subst r; repeat split; reflexivity|]).
  discriminate.
Qed.

Lemma contains_char_mid (a : ascii) (pre rest : string) :
  contains (String a EmptyString) (pre +:+ String a rest) = true.
Proof.
  induction pre as [|c pre IH].
  - change (EmptyString +:+ String a rest) with (String a rest).
    cbn [contains]. simpl startswith. now rewrite Ascii.eqb_refl.
  - rewrite append_cons. cbn [contains]. rewrite IH. apply orb_true_r.
Qed.

Lemma scan_reserved (next r : string) :
  remove_char "@" (drop_query next) = r ->
  mem r reserved_paths = true ->
  scan_parts ["https:"; EmptyString; "x.com"; next] = None.
Proof.
  intros Hclean Hres. cbn [scan_parts].
  replace (mem "https:" twitter_hosts) with false by reflexivity.
  replace (mem EmptyString twitter_hosts) with false by reflexivity.
  replace (mem "x.com" twitter_hosts) with true by reflexivity.
  now rewrite Hclean, Hres.
Qed.

(** X13: a profile URL on x.com whose path is one of the reserved paths
    gives the empty name, with or without query parameters after it. *)
Theorem X13_reserved_path_rejected (r qs : string) :
  mem r reserved_paths = true ->
  lacks "/" qs = true ->
  extract_name_from_url ("https://x.com/" +:+ r) = EmptyString /\
  extract_name_from_url ("https://x.com/" +:+ r +:+ String "?" qs) = EmptyString.
Proof.
  intros Hres Hqs. destruct (reserved_clean r Hres) as (Hs & Hq & Ha).
  split; unfold extract_name_from_url.
  - replace (contains "x.com" ("https://x.com/" +:+ r)) with true
      by (symmetry; now apply (contains_app_l "x.com" "https://x.com/" r)).
    cbn [orb].
    change ("https://x.com/" +:+ r) with ("https://" +:+ "x.com" +:+ String "/" r).
    rewrite (split_profile "x.com" r eq_refl Hs).
    rewrite (scan_reserved r r); [reflexivity | | exact Hres].
    now rewrite (drop_query_id r Hq), remove_char_id.
  - set (next := r +:+ String "?" qs).
    assert (Hnext : lacks "/" next = true).
    { unfold next. clear -Hs Hqs. induction r as [|c r IH].
      - exact Hqs.
      - rewrite append_cons. cbn [lacks] in *.
        apply andb_true_iff in Hs as [-> Hs]. now apply IH. }
    replace (contains "x.com" ("https://x.com/" +:+ next)) with true
      by (symmetry; now apply (contains_app_l "x.com" "https://x.com/" next)).
    cbn [orb].
    change ("https://x.com/" +:+ next)
      with ("https://" +:+ "x.com" +:+ String "/" next).
    rewrite (split_profile "x.com" next eq_refl Hnext).
    rewrite (scan_reserved next r); [reflexivity | | exact Hres].
    unfold drop_query, next. rewrite contains_char_mid.
    rewrite (split_char_cons "?" r qs Hq). cbn [nth].
    now apply remove_char_id.
Qed.

Lemma X13_reserved_path_rejected_witness :
  extract_name_from_url ("https://x.com/" +:+ "settings") = EmptyString /\
  extract_name_from_url ("https://x.com/" +:+ "settings" +:+ String "?" "lang=en")
  = EmptyString.
Proof.
  apply (X13_reserved_path_rejected "settings" "lang=en"); reflexivity.
Defined.

(** *** Query construction *)

(** X14: the query list never has more than three entries, and none of
    them is blank or a bare pair of quotes. *)
Theorem X14_queries_capped_nonblank (username profile_name url : string) :
  length (build_queries username profile_name url) <= 3 /\
  Forall (fun q => strip q <> EmptyString /\ strip q <> empty_quotes)
         (build_queries username profile_name url).
Proof.
  unfold build_queries. split.
  - rewrite length_take. lia.
  - apply Forall_take, Forall_forall. intros q Hq.
    apply list_elem_of_In, filter_In in Hq as [_ Hk].
    unfold keep_query in Hk. apply andb_true_iff in Hk as [Hne Ht].
    apply negb_true_iff, String.eqb_neq in Hne.
    split; [|exact Hne]. intros E. now rewrite E in Ht.
Qed.

Lemma rstrip_end (s : string) (c : ascii) :
  is_space c = false ->
  rstrip (s +:+ String c EmptyString) = s +:+ String c EmptyString.
Proof.
  intros Hc. induction s as [|x s IH].
  - simpl. now rewrite Hc.
  - rewrite append_cons. cbn [rstrip]. rewrite IH.
    destruct s; reflexivity.
Qed.

Lemma strip_quoted (s : string) : strip (quoted s) = quoted s.
Proof.
  unfold strip, quoted.
  replace (lstrip (String dquote (s +:+ String dquote EmptyString)))
    with (String dquote (s +:+ String dquote EmptyString)) by reflexivity.
  rewrite <- append_cons. now apply rstrip_end.
Qed.

Lemma keep_quoted (s : string) : truthy s = true -> keep_query (quoted s) = true.
Proof.
  intros Hs. unfold keep_query. rewrite strip_quoted.
  apply andb_true_iff. split; [|reflexivity].
  apply negb_true_iff, String.eqb_neq. unfold quoted, empty_quotes.
  intros [= E]. destruct s as [|c s]; [discriminate|].
  rewrite append_cons in E. injection E as _ E. now destruct s.
Qed.

(** X15: when the username is not empty, the first query is the username
    in double quotes, and at most two more follow. *)
Theorem X15_first_query_is_username (username profile_name url : string) :
  truthy username = true ->
  exists rest,
    build_queries username profile_name url = quoted username :: rest /\
    length rest <= 2.
Proof.
  intros Hu. unfold build_queries, candidate_queries. rewrite Hu.
  cbn [app List.filter]. rewrite (keep_quoted username Hu).
  cbn [take]. eexists. split; [reflexivity|].
  rewrite length_take. lia.
Qed.

Lemma X15_first_query_is_username_witness :
  exists rest,
    build_queries "alice" "" "" = quoted "alice" :: rest /\ length rest <= 2.
Proof. apply (X15_first_query_is_username "alice" "" ""). reflexivity. Defined.

End NameFacts.

(** ** The matching loop, further *)

Section LoopMore.

Variable World : Type.
Variable search_with_requests :
  string -> platform -> World -> option (list SearchResult) * World.
Variable enhanced_name_match : string -> string -> string -> option bool.
Variable calculate_match_score : string -> string -> string -> string -> option Z.
Variables username profile_name : string.

Local Abbreviation scan_results :=
  (scan_results enhanced_name_match calculate_match_score username profile_name).
Local Abbreviation query_loop :=
  (query_loop World search_with_requests enhanced_name_match
     calculate_match_score username profile_name).
Local Abbreviation platform_pass :=
  (platform_pass World search_with_requests enhanced_name_match
     calculate_match_score username profile_name).
Local Abbreviation find_channels_for_user :=
  (find_channels_for_user World search_with_requests enhanced_name_match
     calculate_match_score username profile_name).

Create Rewrite HintDb trace.
#[local] Hint Rewrite assigns_app assigns_search assigns_sleep assigns_assign
  searches_app searches_search searches_sleep searches_assign : trace.

(** One query of the loop: the search either yields a match, which ends
    the pass, or it yields none, and then the pass ends on a [best_match]
    that is already good enough or goes on with the remaining queries,
    after a sleep unless something raised. *)
Lemma query_loop_step (p : platform) (q : string) (rest : list string)
    (best : BestMatch) (w : World) :
  (exists rs b,
      (search_with_requests q p w).1 = Some rs /\
      scan_results p rs = Found b /\
      query_loop p (q :: rest) best w
      = (b, [EvSearch q p; EvAssign b], (search_with_requests q p w).2))
  \/
  ((forall rs b, (search_with_requests q p w).1 = Some rs ->
                 scan_results p rs <> Found b) /\
   ((query_loop p (q :: rest) best w
     = (best, [EvSearch q p], (search_with_requests q p w).2) /\
     (50 <= score best)%Z)
    \/
    exists mid,
      (mid = [] \/ mid = [EvSleep]) /\
      query_loop p (q :: rest) best w
      = ((query_loop p rest best (search_with_requests q p w).2).1.1,
         EvSearch q p :: mid ++ (query_loop p rest best (search_with_requests q p w).2).1.2,
         (query_loop p rest best (search_with_requests q p w).2).2))).
Proof.
  simpl. destruct (search_with_requests q p w) as [r w1]. cbn [fst snd].
  destruct (query_loop p rest best w1) as [[b' evs'] w'] eqn:Erest.
  cbn [fst snd].
  assert (Hempty : forall rs b, Some ([] : list SearchResult) = Some rs ->
                                scan_results p rs <> Found b)
    by (intros rs b [= <-]; discriminate).
  destruct r as [[|r0 rs0]|].
  - right. split; [exact Hempty|].
    destruct (50 <=? score best)%Z eqn:Eb.
    + left. split; [reflexivity | now apply Z.leb_le].
    + right. exists [EvSleep]. split; [now right | reflexivity].
  - destruct (scan_results p (r0 :: rs0)) as [bf| |] eqn:Es.
    + left. exists (r0 :: rs0), bf. split; [reflexivity|]. split; [exact Es|].
      destruct (scan_results_found _ _ _ _ _ _ _ Es) as [Hge _].
      apply Z.leb_le in Hge. now rewrite Hge.
    + right. split; [intros rs b [= <-]; congruence|].
      destruct (50 <=? score best)%Z eqn:Eb.
      * left. split; [reflexivity | now apply Z.leb_le].
      * right. exists [EvSleep]. split; [now right | reflexivity].
    + right. split; [intros rs b [= <-]; congruence|].
      right. exists []. split; [now left | reflexivity].
  - right. split; [discriminate|].
    right. exists []. split; [now left | reflexivity].
Qed.

(** The searches of a pass are the first queries of the list, in order. *)
Lemma query_loop_searches (p : platform) (queries : list string) :
  forall (best : BestMatch) (w : World),
  exists k,
    searches (query_loop p queries best w).1.2
    = map (fun q => (q, p)) (take k queries).
Proof.
  induction queries as [|q rest IH]; intros best w.
  - exists 0. reflexivity.
  - destruct (query_loop_step p q rest best w)
      as [(rs & b & _ & _ & ->)|[_ [[-> _]|(mid & Hmid & ->)]]].
    + exists 1. reflexivity.
    + exists 1. reflexivity.
    + destruct (IH best (search_with_requests q p w).2) as [k Hk].
      exists (S k). cbn [fst snd take map].
      autorewrite with trace. rewrite Hk.
      now destruct Hmid as [->| ->].
Qed.

Lemma build_queries_length (url : string) :
  length (build_queries username profile_name url) <= 3.
Proof. unfold build_queries. rewrite length_take. lia. Qed.

(** X16: a run searches YouTube first and then Twitch, each time going
    once through the first positions of the one query list, in order: the
    searches of a platform are a prefix of that list (which may itself hold
    the same text at two positions), so a run issues at most six
    searches. *)
Theorem X16_search_budget (url : string) (w : World) :
  exists k1 k2,
    searches (find_channels_for_user url w).1.2
    = map (fun q => (q, youtube))
          (take k1 (build_queries username profile_name url))
      ++ map (fun q => (q, twitch))
             (take k2 (build_queries username profile_name url)) /\
    length (searches (find_channels_for_user url w).1.2) <= 6.
Proof.
  unfold find_channels_for_user, platform_pass.
  set (qs := build_queries username profile_name url).
  destruct (query_loop_searches youtube qs best_match_init w) as [k1 H1].
  destruct (query_loop youtube qs best_match_init w) as [[b1 e1] w1].
  destruct (query_loop_searches twitch qs best_match_init w1) as [k2 H2].
  destruct (query_loop twitch qs best_match_init w1) as [[b2 e2] w2].
  cbn [fst snd] in *. exists k1, k2.
  rewrite searches_app, H1, H2. split; [reflexivity|].
  rewrite length_app, !length_map, !length_take.
  pose proof (build_queries_length url). fold qs in H. lia.
Qed.

(** A recorded match comes from one of the results scanned. *)
Lemma scan_results_found_inv (p : platform) (rs : list SearchResult) (b : BestMatch) :
  scan_results p rs = Found b ->
  exists r clean s,
    r ∈ rs /\
    filter_for p (sr_url r) = Some clean /\
    enhanced_name_match clean username profile_name = Some true /\
    calculate_match_score username profile_name (sr_title r) clean = Some s /\
    b = {| score := floor50 s; title := Some (sr_title r); url := Some clean |}.
Proof.
  induction rs as [|r rs IH]; simpl; [discriminate|].
  assert (Hrec : scan_results p rs = Found b ->
                 exists r0 clean s,
                   r0 ∈ r :: rs /\
                   filter_for p (sr_url r0) = Some clean /\
                   enhanced_name_match clean username profile_name = Some true /\
                   calculate_match_score username profile_name (sr_title r0) clean
                   = Some s /\
                   b = {| score := floor50 s; title := Some (sr_title r0);
                          url := Some clean |}).
  { intros H. destruct (IH H) as (r0 & clean & s & Hin & Hrest).
    exists r0, clean, s. split; [now right | exact Hrest]. }
  destruct (filter_for p (sr_url r)) as [clean|] eqn:Ef; [|exact Hrec].
  destruct (truthy clean); simpl; [|exact Hrec].
  destruct (enhanced_name_match clean username profile_name) as [[|]|] eqn:Ee;
    [|exact Hrec|discriminate].
  destruct (calculate_match_score username profile_name (sr_title r) clean)
    as [s|] eqn:Ec; [|discriminate].
  intros [= <-]. exists r, clean, s.
  split; [now left|]. now repeat split.
Qed.

(** A pass that ends on a match: the matching search and the assignment
    are its last two events. *)
Lemma query_loop_match (p : platform) (queries : list string) :
  forall (best : BestMatch) (w : World) b evs w',
    query_loop p queries best w = (b, evs, w') ->
    (score best < 50)%Z -> (50 <= score b)%Z ->
    exists pre q w0 rs,
      evs = pre ++ [EvSearch q p; EvAssign b] /\
      assigns pre = [] /\
      q ∈ queries /\
      search_with_requests q p w0 = (Some rs, w') /\
      scan_results p rs = Found b.
Proof.
  induction queries as [|q rest IH]; intros best w b evs w' H Hlow Hhigh.
  - injection H as <- <- <-. lia.
  - destruct (query_loop_step p q rest best w)
      as [(rs & bf & Hs & Hf & Hq)|[_ [[Hq Hge]|(mid & Hmid & Hq)]]];
      rewrite Hq in H; injection H as <- <- <-.
    + exists [], q, w, rs. split; [reflexivity|]. split; [reflexivity|].
      split; [now left|]. split; [|exact Hf].
      destruct (search_with_requests q p w) as [r w1]. simpl in *. now subst r.
    + lia.
    + destruct (query_loop p rest best (search_with_requests q p w).2)
        as [[b2 e2] w2] eqn:E. cbn [fst snd] in *.
      destruct (IH _ _ _ _ _ E Hlow Hhigh) as (pre & q0 & w0 & rs & -> & Ha & Hin & Hrest).
      exists (EvSearch q p :: mid ++ pre), q0, w0, rs.
      split; [cbn [app]; now rewrite app_assoc|].
      split; [|split; [now right | exact Hrest]].
      autorewrite with trace. rewrite Ha.
      now destruct Hmid as [->| ->].
Qed.

(** X17: when a pass ends on a match, the search that gave the match and
    the assignment of [best_match] are the last two events of the pass:
    at whichever query the match comes, nothing is searched and nothing is
    slept after it, and nothing was assigned before it. *)
Theorem X17_match_ends_pass (p : platform) (queries : list string) (w : World) :
  (50 <= score (platform_pass p queries w).1.1)%Z ->
  exists pre q,
    (platform_pass p queries w).1.2
    = pre ++ [EvSearch q p; EvAssign (platform_pass p queries w).1.1] /\
    assigns pre = [] /\ q ∈ queries.
Proof.
  unfold platform_pass.
  destruct (query_loop p queries best_match_init w) as [[b evs] w'] eqn:E.
  cbn [fst snd]. intros Hge.
  destruct (query_loop_match p queries _ _ _ _ _ E ltac:(simpl; lia) Hge)
    as (pre & q & _ & _ & -> & Ha & Hin & _).
  now exists pre, q.
Qed.

(** X18: a match that a pass ends on is the filtered URL and the title of
    a result that the search engine returned for one of the queries on
    that platform and that the matcher accepted, with the matcher's score
    raised to 50 if lower; the pass ends in the world left by that
    search. *)
Theorem X18_match_provenance (p : platform) (queries : list string) (w : World) :
  (50 <= score (platform_pass p queries w).1.1)%Z ->
  exists q w0 rs r clean s,
    q ∈ queries /\
    search_with_requests q p w0 = (Some rs, (platform_pass p queries w).2) /\
    r ∈ rs /\
    filter_for p (sr_url r) = Some clean /\
    enhanced_name_match clean username profile_name = Some true /\
    calculate_match_score username profile_name (sr_title r) clean = Some s /\
    (platform_pass p queries w).1.1
    = {| score := floor50 s; title := Some (sr_title r); url := Some clean |}.
Proof.
  unfold platform_pass.
  destruct (query_loop p queries best_match_init w) as [[b evs] w'] eqn:E.
  cbn [fst snd]. intros Hge.
  destruct (query_loop_match p queries _ _ _ _ _ E ltac:(simpl; lia) Hge)
    as (_ & q & w0 & rs & _ & _ & Hin & Hs & Hf).
  destruct (scan_results_found_inv p rs b Hf) as (r & clean & s & Hr & Hrest).
  exists q, w0, rs, r, clean, s. split; [exact Hin|]. split; [exact Hs|].
  split; [exact Hr | exact Hrest].
Qed.

(** With a matcher that accepts nothing, a pass goes through every
    query and keeps the [best_match] it started from. *)
Lemma query_loop_exhaust (p : platform) (queries : list string) :
  (forall clean, enhanced_name_match clean username profile_name <> Some true) ->
  forall (best : BestMatch) (w : World),
    (score best < 50)%Z ->
    (query_loop p queries best w).1.1 = best /\
    searches (query_loop p queries best w).1.2 = map (fun q => (q, p)) queries.
Proof.
  intros Hrej. induction queries as [|q rest IH]; intros best w Hlow.
  - now split.
  - destruct (query_loop_step p q rest best w)
      as [(rs & bf & _ & Hf & _)|[_ [[_ Hge]|(mid & Hmid & ->)]]].
    + destruct (scan_results_found_inv p rs bf Hf) as (r & clean & s & _ & _ & He & _).
      destruct (Hrej clean He).
    + lia.
    + destruct (IH best (search_with_requests q p w).2 Hlow) as [Hb Hs].
      cbn [fst snd]. split; [exact Hb|].
      autorewrite with trace. rewrite Hs.
      now destruct Hmid as [->| ->].
Qed.

(** X19: when the matcher accepts no URL for the identity (it answers no,
    or raises), a run searches every query on YouTube and then every query
    on Twitch, and returns no URL and score 0 for both platforms. *)
Theorem X19_no_acceptance_exhausts_queries (url : string) (w : World) :
  (forall clean, enhanced_name_match clean username profile_name <> Some true) ->
  (find_channels_for_user url w).1.1 = results_init /\
  searches (find_channels_for_user url w).1.2
  = map (fun q => (q, youtube)) (build_queries username profile_name url)
    ++ map (fun q => (q, twitch)) (build_queries username profile_name url).
Proof.
  intros Hrej. unfold find_channels_for_user, platform_pass.
  set (qs := build_queries username profile_name url).
  destruct (query_loop_exhaust youtube qs Hrej best_match_init w ltac:(simpl; lia))
    as [Hb1 Hs1].
  destruct (query_loop youtube qs best_match_init w) as [[b1 e1] w1].
  destruct (query_loop_exhaust twitch qs Hrej best_match_init w1 ltac:(simpl; lia))
    as [Hb2 Hs2].
  destruct (query_loop twitch qs best_match_init w1) as [[b2 e2] w2].
  cbn [fst snd] in *. subst b1 b2.
  split; [reflexivity|]. now rewrite searches_app, Hs1, Hs2.
Qed.

(** A resource that each search uses at most [k] of is used at most [k]
    per query by a pass. *)
Lemma query_loop_cost (cost : World -> nat) (k : nat) (p : platform)
    (queries : list string) :
  (forall q p w, cost (search_with_requests q p w).2 <= cost w + k) ->
  forall (best : BestMatch) (w : World),
    cost (query_loop p queries best w).2 <= cost w + k * length queries.
Proof.
  intros Hk. induction queries as [|q rest IH]; intros best w.
  - simpl. lia.
  - pose proof (Hk q p w) as Hq.
    destruct (query_loop_step p q rest best w)
      as [(rs & bf & _ & _ & ->)|[_ [[-> _]|(mid & _ & ->)]]];
      cbn [fst snd length]; try lia.
    specialize (IH best (search_with_requests q p w).2). lia.
Qed.

Lemma run_cost (cost : World -> nat) (k : nat) (url : string) (w : World) :
  (forall q p w, cost (search_with_requests q p w).2 <= cost w + k) ->
  cost (find_channels_for_user url w).2 <= cost w + 6 * k.
Proof.
  intros Hk. unfold find_channels_for_user, platform_pass.
  set (qs := build_queries username profile_name url).
  pose proof (build_queries_length url) as Hlen. fold qs in Hlen.
  pose proof (query_loop_cost cost k youtube qs Hk best_match_init w) as H1.
  destruct (query_loop youtube qs best_match_init w) as [[b1 e1] w1].
  pose proof (query_loop_cost cost k twitch qs Hk best_match_init w1) as H2.
  destruct (query_loop twitch qs best_match_init w1) as [[b2 e2] w2].
  cbn [fst snd] in *. nia.
Qed.

(** X20: the world changes through searches only: whatever each search
    costs at most [k] of (requests, time, proxies marked failed), a run
    costs at most six times [k] of. *)
Theorem X20_run_cost_bound (cost : World -> nat) (k : nat) (url : string) (w : World) :
  (forall q p w, cost (search_with_requests q p w).2 <= cost w + k) ->
  cost (find_channels_for_user url w).2 <= cost w + 6 * k.
Proof. apply run_cost. Qed.

End LoopMore.

(** ** Claims on the matching loop and on the run *)

Section RunFacts.

Variable World : Type.
Variable search_with_requests :
  string -> platform -> World -> option (list SearchResult) * World.
Variable enhanced_name_match : string -> string -> string -> option bool.
Variable calculate_match_score : string -> string -> string -> string -> option Z.
Variables username profile_name : string.

Local Abbreviation scan_results :=
  (scan_results enhanced_name_match calculate_match_score username profile_name).
Local Abbreviation query_loop :=
  (query_loop World search_with_requests enhanced_name_match
     calculate_match_score username profile_name).
Local Abbreviation platform_pass :=
  (platform_pass World search_with_requests enhanced_name_match
     calculate_match_score username profile_name).
Local Abbreviation find_channels_for_user :=
  (find_channels_for_user World search_with_requests enhanced_name_match
     calculate_match_score username profile_name).
Local Abbreviation pass_start :=
  (pass_start World search_with_requests enhanced_name_match
     calculate_match_score username profile_name).

Create Rewrite HintDb adopt.
#[local] Hint Rewrite assigns_app assigns_search assigns_sleep assigns_assign
  searches_app searches_search searches_sleep searches_assign : adopt.

(** The loop adopts a match wherever it comes: when the queries before [q]
    end without a match and the search of [q] gives one, the pass ends on
    that match, in the world left by that search, having searched the
    earlier queries and [q] only. *)
Lemma query_loop_adopts (p : platform) (q : string) (qs2 : list string)
    (rs : list SearchResult) (b : BestMatch) (w2 : World) :
  scan_results p rs = Found b ->
  forall (qs1 : list string) (best : BestMatch) (w : World),
    (score best < 50)%Z ->
    (score (query_loop p qs1 best w).1.1 < 50)%Z ->
    search_with_requests q p (query_loop p qs1 best w).2 = (Some rs, w2) ->
    (query_loop p (qs1 ++ q :: qs2) best w).1.1 = b /\
    (query_loop p (qs1 ++ q :: qs2) best w).2 = w2 /\
    searches (query_loop p (qs1 ++ q :: qs2) best w).1.2
    = searches (query_loop p qs1 best w).1.2 ++ [(q, p)].
Proof.
  intros Hfound. induction qs1 as [|q0 rest IH]; intros best w Hbest Hlow Hs.
  - cbn [app]. change (query_loop p [] best w) with (best, @nil event, w) in Hs.
    cbn [fst snd] in Hs.
    destruct (query_loop_step World search_with_requests enhanced_name_match
                calculate_match_score username profile_name p q qs2 best w)
      as [(rs' & b' & Hs' & Hf' & ->)|[Hno _]].
    + rewrite Hs in Hs'. cbn [fst] in Hs'. injection Hs' as <-.
      rewrite Hfound in Hf'. injection Hf' as <-.
      rewrite Hs. now repeat split.
    + destruct (Hno rs b); [now rewrite Hs | exact Hfound].
  - destruct (query_loop_step World search_with_requests enhanced_name_match
                calculate_match_score username profile_name p q0 rest best w)
      as [(rs1 & b1 & _ & Hf1 & Heq1)|[Hno [[_ Hge]|(mid & Hmid & Heq1)]]].
    + rewrite Heq1 in Hlow. cbn [fst] in Hlow.
      destruct (scan_results_found _ _ _ _ _ _ _ Hf1) as [Hge _]. lia.
    + lia.
    + rewrite Heq1 in Hlow, Hs. cbn [fst snd] in Hlow, Hs.
      destruct (IH best _ Hbest Hlow Hs) as (IHb & IHw & IHs).
      cbn [app].
      destruct (query_loop_step World search_with_requests enhanced_name_match
                  calculate_match_score username profile_name p q0
                  (rest ++ q :: qs2) best w)
        as [(rs1 & b1 & Hs1 & Hf1 & _)|[_ [[_ Hge]|(mid' & Hmid' & ->)]]].
      * destruct (Hno rs1 b1 Hs1 Hf1).
      * lia.
      * rewrite Heq1. cbn [fst snd]. split; [exact IHb|]. split; [exact IHw|].
        autorewrite with adopt. rewrite IHs.
        destruct Hmid as [->| ->], Hmid' as [->| ->]; reflexivity.
Qed.

Lemma store_best_same (p : platform) (b : BestMatch) (c c' : Channels) :
  channel_url p c = channel_url p c' ->
  channel_score p c = channel_score p c' ->
  channel_url p (store_best p b c) = channel_url p (store_best p b c') /\
  channel_score p (store_best p b c) = channel_score p (store_best p b c').
Proof.
  intros Hu Hs. unfold store_best.
  destruct (50 <=? score b)%Z; destruct p; auto.
Qed.

(** The two fields of a platform in the output of a run are what
    [store_best] makes of the [best_match] of that platform's pass. *)
Lemma run_fields (p : platform) (url : string) (w : World) :
  channel_url p (find_channels_for_user url w).1.1
  = channel_url p
      (store_best p (platform_pass p (build_queries username profile_name url)
                       (pass_start p url w)).1.1 results_init) /\
  channel_score p (find_channels_for_user url w).1.1
  = channel_score p
      (store_best p (platform_pass p (build_queries username profile_name url)
                       (pass_start p url w)).1.1 results_init).
Proof.
  unfold find_channels_for_user.
  set (qs := build_queries username profile_name url).
  destruct p.
  - change (pass_start youtube url w) with w.
    destruct (platform_pass youtube qs w) as [[b1 e1] w1].
    destruct (platform_pass twitch qs w1) as [[b2 e2] w2].
    cbn [fst snd].
    destruct (store_best_other twitch youtube b2
                (store_best youtube b1 results_init)) as [Hu Hs];
      [discriminate | now rewrite Hu, Hs].
  - change (pass_start twitch url w) with (platform_pass youtube qs w).2.
    destruct (platform_pass youtube qs w) as [[b1 e1] w1]. cbn [fst snd].
    destruct (platform_pass twitch qs w1) as [[b2 e2] w2]. cbn [fst snd].
    destruct (store_best_other youtube twitch b1 results_init) as [Hu Hs];
      [discriminate|].
    exact (store_best_same twitch b2 _ _ Hu Hs).
Qed.

Lemma filter_on_same (p : platform) (qs : list string) :
  List.filter (fun s : string * platform => platform_eqb p s.2)
              (map (fun q => (q, p)) qs)
  = map (fun q => (q, p)) qs.
Proof.
  induction qs as [|q qs IH]; [reflexivity|]. cbn [map List.filter snd].
  replace (platform_eqb p p) with true by now destruct p. now rewrite IH.
Qed.

Lemma filter_on_other (p p' : platform) (qs : list string) :
  p <> p' ->
  List.filter (fun s : string * platform => platform_eqb p s.2)
              (map (fun q => (q, p')) qs)
  = [].
Proof.
  intros Hne.
  assert (E : platform_eqb p p' = false)
    by (destruct p, p'; first [reflexivity | now destruct Hne]).
  induction qs as [|q qs IH]; [reflexivity|].
  cbn [map List.filter snd]. now rewrite E.
Qed.

(** The searches of a run for one platform are those of that platform's
    pass. *)
Lemma run_searches_on (p : platform) (url : string) (w : World) :
  searches_on p (find_channels_for_user url w).1.2
  = searches (platform_pass p (build_queries username profile_name url)
                (pass_start p url w)).1.2.
Proof.
  unfold searches_on, find_channels_for_user, platform_pass.
  set (qs := build_queries username profile_name url).
  destruct p.
  - change (pass_start youtube url w) with w.
    destruct (query_loop_searches World search_with_requests enhanced_name_match
                calculate_match_score username profile_name youtube qs
                best_match_init w) as [k1 H1].
    destruct (query_loop youtube qs best_match_init w) as [[b1 e1] w1].
    destruct (query_loop_searches World search_with_requests enhanced_name_match
                calculate_match_score username profile_name twitch qs
                best_match_init w1) as [k2 H2].
    destruct (query_loop twitch qs best_match_init w1) as [[b2 e2] w2].
    cbn [fst snd] in *. rewrite searches_app, List.filter_app, H1, H2.
    rewrite filter_on_same, (filter_on_other youtube twitch) by discriminate.
    apply app_nil_r.
  - change (pass_start twitch url w)
      with (query_loop youtube qs best_match_init w).2.
    destruct (query_loop_searches World search_with_requests enhanced_name_match
                calculate_match_score username profile_name youtube qs
                best_match_init w) as [k1 H1].
    destruct (query_loop youtube qs best_match_init w) as [[b1 e1] w1].
    cbn [fst snd] in *.
    destruct (query_loop_searches World search_with_requests enhanced_name_match
                calculate_match_score username profile_name twitch qs
                best_match_init w1) as [k2 H2].
    destruct (query_loop twitch qs best_match_init w1) as [[b2 e2] w2].
    cbn [fst snd] in *. rewrite searches_app, List.filter_app, H1, H2.
    now rewrite filter_on_same, (filter_on_other twitch youtube) by discriminate.
Qed.

Lemma pass_adopts (p : platform) (qs1 : list string) (q : string)
    (qs2 : list string) (w w2 : World) (rs : list SearchResult) (b : BestMatch) :
  scan_results p rs = Found b ->
  (score (platform_pass p qs1 w).1.1 < 50)%Z ->
  search_with_requests q p (platform_pass p qs1 w).2 = (Some rs, w2) ->
  (platform_pass p (qs1 ++ q :: qs2) w).1.1 = b /\
  (platform_pass p (qs1 ++ q :: qs2) w).2 = w2 /\
  searches (platform_pass p (qs1 ++ q :: qs2) w).1.2
  = searches (platform_pass p qs1 w).1.2 ++ [(q, p)].
Proof.
  intros Hf Hlow Hs. unfold platform_pass in *.
  apply (query_loop_adopts p q qs2 rs b w2 Hf qs1 best_match_init w);
    [simpl; lia | exact Hlow | exact Hs].
Qed.

(** C2: when the results before [r] were all passed over and the matcher
    accepts the cleaned URL of [r] with computed score [s], the match
    recorded for the list is that URL with score [s] raised to 50 when
    [s < 50] (and [s] itself otherwise); no assignment to [best_match] in
    any pass carries a score below 50; whenever the pass reaches the query
    that returns these results (the queries before it having given no
    match), the pass ends on that match, and the run reports that URL
    with exactly that score, 50 when [s < 50], for the platform; and no
    run reports a score other than 0 below 50. *)
Theorem C2_accepted_match_floor (p : platform) (pre post : list SearchResult)
    (r : SearchResult) (clean : string) (s : Z) :
  scan_results p pre = NotFound ->
  filter_for p (sr_url r) = Some clean ->
  enhanced_name_match clean username profile_name = Some true ->
  calculate_match_score username profile_name (sr_title r) clean = Some s ->
  (exists b,
      scan_results p (pre ++ r :: post) = Found b /\
      url b = Some clean /\
      ((s < 50)%Z -> score b = 50%Z) /\
      ((50 <= s)%Z -> score b = s) /\
      (50 <= score b)%Z) /\
  (forall queries w,
      Forall (fun b => (50 <= score b)%Z)
             (assigns (platform_pass p queries w).1.2)) /\
  (forall qs1 q qs2 w w2,
      (score (platform_pass p qs1 w).1.1 < 50)%Z ->
      search_with_requests q p (platform_pass p qs1 w).2
      = (Some (pre ++ r :: post), w2) ->
      (platform_pass p (qs1 ++ q :: qs2) w).1.1
      = {| score := floor50 s; title := Some (sr_title r); url := Some clean |}) /\
  (forall url w qs1 q qs2 w2,
      build_queries username profile_name url = qs1 ++ q :: qs2 ->
      (score (platform_pass p qs1 (pass_start p url w)).1.1 < 50)%Z ->
      search_with_requests q p (platform_pass p qs1 (pass_start p url w)).2
      = (Some (pre ++ r :: post), w2) ->
      channel_url p (find_channels_for_user url w).1.1 = Some clean /\
      channel_score p (find_channels_for_user url w).1.1 = floor50 s /\
      ((s < 50)%Z -> channel_score p (find_channels_for_user url w).1.1 = 50%Z) /\
      ((50 <= s)%Z -> channel_score p (find_channels_for_user url w).1.1 = s)) /\
  (forall url w p',
      (channel_score p' (find_channels_for_user url w).1.1 = 0%Z /\
       channel_url p' (find_channels_for_user url w).1.1 = None) \/
      (50 <= channel_score p' (find_channels_for_user url w).1.1)%Z).
Proof.
  intros Hpre Hf He Hs.
  assert (Hacc : scan_results p (pre ++ r :: post)
                 = Found {| score := floor50 s; title := Some (sr_title r);
                            url := Some clean |}).
  { rewrite (scan_results_app _ _ _ _ _ _ _ Hpre).
    exact (scan_results_accept _ _ _ _ _ _ _ _ _ Hf He Hs). }
  split; [|split; [|split; [|split]]].
  - eexists. split; [exact Hacc|]. simpl.
    repeat split; auto using floor50_low, floor50_high, floor50_ge.
  - intros queries w.
    destruct (platform_pass p queries w) as [[b evs] w'] eqn:E. simpl.
    destruct (platform_pass_shape _ _ _ _ _ _ _ _ _ _ _ _ E)
      as [[_ ->]|[[Hge _] ->]];
      [constructor | repeat constructor; exact Hge].
  - intros qs1 q qs2 w w2 Hlow Hsearch.
    now destruct (pass_adopts p qs1 q qs2 w w2 _ _ Hacc Hlow Hsearch) as [-> _].
  - intros url w qs1 q qs2 w2 Hqs Hlow Hsearch.
    destruct (pass_adopts p qs1 q qs2 _ w2 _ _ Hacc Hlow Hsearch) as [Hb _].
    destruct (run_fields p url w) as [Hu Hsc]. rewrite Hqs, Hb in Hu, Hsc.
    destruct (store_best_recorded p
                {| score := floor50 s; title := Some (sr_title r); url := Some clean |}
                results_init (floor50_ge s)) as [Eu Es].
    rewrite Eu in Hu. rewrite Es in Hsc. simpl in Hu, Hsc.
    rewrite Hu, Hsc.
    repeat split; auto using floor50_low, floor50_high.
  - intros url w p'.
    destruct (find_channels_for_user url w) as [[c evs] w'] eqn:E. cbn [fst].
    destruct (find_channels_fields _ _ _ _ _ _ _ _ _ _ _ E) as [Fy Ft].
    destruct p'; cbn [channel_score channel_url];
      [destruct Fy as [(cl & _ & _ & Hge)|[-> ->]]
      |destruct Ft as [(cl & _ & _ & Hge)|[-> ->]]]; auto.
Qed.

(** C3: when the first result of the first query that passes the platform
    filter is accepted with computed score 80, the pass issues that one
    search only, ends in the world left by it, and both the final
    [best_match] and the stored output carry that URL with score 80,
    whatever results and queries come after; and in the run of
    [find_channels_for_user] whose query list starts with that query and
    whose pass for the platform starts in that world, the platform's output
    score is exactly 80, its URL is that URL, and that search is the only
    one the run issues for the platform. *)
Theorem C3_first_match_short_circuits (p : platform) (q : string)
    (qs : list string) (w w1 : World) (pre post : list SearchResult)
    (r : SearchResult) (clean : string) (results : Channels) :
  search_with_requests q p w = (Some (pre ++ r :: post), w1) ->
  Forall (fun x => filter_for p (sr_url x) = None) pre ->
  filter_for p (sr_url r) = Some clean ->
  enhanced_name_match clean username profile_name = Some true ->
  calculate_match_score username profile_name (sr_title r) clean = Some 80%Z ->
  (exists b evs,
      platform_pass p (q :: qs) w = (b, evs, w1) /\
      searches evs = [(q, p)] /\
      assigns evs = [b] /\
      score b = 80%Z /\ url b = Some clean /\
      channel_score p (store_best p b results) = 80%Z /\
      channel_url p (store_best p b results) = Some clean) /\
  (forall url w0,
      build_queries username profile_name url = q :: qs ->
      pass_start p url w0 = w ->
      channel_score p (find_channels_for_user url w0).1.1 = 80%Z /\
      channel_url p (find_channels_for_user url w0).1.1 = Some clean /\
      searches_on p (find_channels_for_user url w0).1.2 = [(q, p)]).
Proof.
  intros Hsearch Hpre Hf He Hs.
  pose proof (scan_results_accept _ _ _ _ p r post clean 80 Hf He Hs) as Hacc.
  rewrite <- (scan_results_app _ _ _ _ p pre (r :: post)
                (scan_results_rejected _ _ _ _ _ _ Hpre)) in Hacc.
  change (floor50 80) with 80%Z in Hacc.
  pose proof (platform_pass_first_query _ _ _ _ _ _ _ _ qs _ _ _ _ Hsearch Hacc)
    as Hpass.
  assert (Hge : (50 <= score {| score := 80; title := Some (sr_title r);
                                url := Some clean |})%Z) by (simpl; lia).
  split.
  - eexists _, _. split; [exact Hpass|].
    destruct (store_best_recorded p _ results Hge) as [Hu Hsc].
    repeat split; assumption.
  - intros url w0 Hqs Hw.
    destruct (run_fields p url w0) as [Hu Hsc].
    pose proof (run_searches_on p url w0) as Hon.
    rewrite Hqs, Hw, Hpass in Hu, Hsc, Hon. cbn [fst snd] in Hu, Hsc, Hon.
    destruct (store_best_recorded p _ results_init Hge) as [Eu Es].
    rewrite Eu in Hu. rewrite Es in Hsc.
    repeat split; assumption.
Qed.

End RunFacts.

Lemma C2_accepted_match_floor_witness :
  channel_url youtube
    (find_channels_for_user nat late_search demo_match (demo_score 30)
       "alice" "Alice W" "https://x.com/alicew" 0).1.1
  = Some "https://www.youtube.com/@alice" /\
  channel_score youtube
    (find_channels_for_user nat late_search demo_match (demo_score 30)
       "alice" "Alice W" "https://x.com/alicew" 0).1.1
  = 50%Z.
Proof.
  destruct (C2_accepted_match_floor nat late_search demo_match (demo_score 30)
              "alice" "Alice W" youtube [r_video] [] r_channel
              "https://www.youtube.com/@alice" 30
              eq_refl eq_refl eq_refl eq_refl)
    as (_ & _ & _ & Hrun & _).
  destruct (Hrun "https://x.com/alicew" 0%nat [quoted "alice"]
              (quoted "Alice W") ["alice Alice W"] 2%nat
              eq_refl ltac:(vm_compute; reflexivity) eq_refl)
    as (Hu & _ & Hlow & _).
  split; [exact Hu | apply Hlow; lia].
Defined.

Lemma C3_first_match_short_circuits_witness :
  channel_score youtube
    (find_channels_for_user nat demo_search demo_match (demo_score 80)
       "alice" "Alice W" "https://x.com/alicew" 0).1.1 = 80%Z /\
  channel_url youtube
    (find_channels_for_user nat demo_search demo_match (demo_score 80)
       "alice" "Alice W" "https://x.com/alicew" 0).1.1
  = Some "https://www.youtube.com/@alice" /\
  searches_on youtube
    (find_channels_for_user nat demo_search demo_match (demo_score 80)
       "alice" "Alice W" "https://x.com/alicew" 0).1.2
  = [(quoted "alice", youtube)].
Proof.
  destruct (C3_first_match_short_circuits nat demo_search demo_match
              (demo_score 80) "alice" "Alice W" youtube (quoted "alice")
              [quoted "Alice W"; "alice Alice W"] 0%nat 1%nat [r_video] []
              r_channel "https://www.youtube.com/@alice" results_init
              eq_refl ltac:(repeat constructor) eq_refl eq_refl eq_refl)
    as [_ Hrun].
  exact (Hrun "https://x.com/alicew" 0%nat eq_refl eq_refl).
Defined.

Lemma X17_match_ends_pass_witness :
  exists pre q,
    (platform_pass nat demo_search demo_match (demo_score 80) "alice" "Alice W"
       youtube [quoted "alice"; quoted "Alice W"] 0).1.2
    = pre ++ [EvSearch q youtube;
              EvAssign (platform_pass nat demo_search demo_match (demo_score 80)
                          "alice" "Alice W" youtube
                          [quoted "alice"; quoted "Alice W"] 0).1.1] /\
    assigns pre = [] /\ q ∈ [quoted "alice"; quoted "Alice W"].
Proof.
  apply (X17_match_ends_pass nat demo_search demo_match (demo_score 80)
           "alice" "Alice W" youtube [quoted "alice"; quoted "Alice W"] 0).
  vm_compute. discriminate.
Defined.

Lemma X18_match_provenance_witness :
  exists q w0 rs r clean s,
    q ∈ [quoted "alice"] /\
    demo_search q twitch w0
    = (Some rs, (platform_pass nat demo_search demo_match (demo_score 30)
                   "alice" "Alice W" twitch [quoted "alice"] 0).2) /\
    r ∈ rs /\
    filter_for twitch (sr_url r) = Some clean /\
    demo_match clean "alice" "Alice W" = Some true /\
    demo_score 30 "alice" "Alice W" (sr_title r) clean = Some s /\
    (platform_pass nat demo_search demo_match (demo_score 30)
       "alice" "Alice W" twitch [quoted "alice"] 0).1.1
    = {| score := floor50 s; title := Some (sr_title r); url := Some clean |}.
Proof.
  apply (X18_match_provenance nat demo_search demo_match (demo_score 30)
           "alice" "Alice W" twitch [quoted "alice"] 0).
  vm_compute. discriminate.
Defined.

Lemma X19_no_acceptance_exhausts_queries_witness :
  (find_channels_for_user nat demo_search (fun _ _ _ => Some false)
     (demo_score 80) "alice" "Alice W" "https://x.com/alicew" 0).1.1
  = results_init /\
  searches (find_channels_for_user nat demo_search (fun _ _ _ => Some false)
              (demo_score 80) "alice" "Alice W" "https://x.com/alicew" 0).1.2
  = map (fun q => (q, youtube))
        (build_queries "alice" "Alice W" "https://x.com/alicew")
    ++ map (fun q => (q, twitch))
           (build_queries "alice" "Alice W" "https://x.com/alicew").
Proof.
  apply (X19_no_acceptance_exhausts_queries nat demo_search
           (fun _ _ _ => Some false) (demo_score 80) "alice" "Alice W"
           "https://x.com/alicew" 0).
  intros clean. discriminate.
Defined.

Lemma X20_run_cost_bound_witness :
  (find_channels_for_user nat demo_search (fun _ _ _ => Some false)
     (demo_score 80) "alice" "Alice W" "https://x.com/alicew" 0).2
  <= 0 + 6 * 1.
Proof.
  apply (X20_run_cost_bound nat demo_search (fun _ _ _ => Some false)
           (demo_score 80) "alice" "Alice W" (fun w => w) 1
           "https://x.com/alicew" 0).
  intros q p w. simpl. lia.
Defined.

(** X21: with no username and no display name, and a profile URL that
    gives no name (or no URL at all), a run issues no search, leaves the
    world untouched and returns no URL and score 0 for both platforms. *)
Theorem X21_no_identity_no_search (World : Type)
    (search_with_requests :
       string -> platform -> World -> option (list SearchResult) * World)
    (enhanced_name_match : string -> string -> string -> option bool)
    (calculate_match_score : string -> string -> string -> string -> option Z)
    (url : string) (w : World) :
  extract_name_from_url url = EmptyString ->
  find_channels_for_user World search_with_requests enhanced_name_match
    calculate_match_score EmptyString EmptyString url w
  = (results_init, [], w).
Proof.
  intros He.
  assert (Hq : build_queries EmptyString EmptyString url = []).
  { unfold build_queries, candidate_queries. cbn [truthy andb app].
    destruct (truthy url); [|reflexivity]. now rewrite He. }
  unfold find_channels_for_user. now rewrite Hq.
Qed.

Lemma X21_no_identity_no_search_witness :
  find_channels_for_user nat demo_search demo_match (demo_score 80)
    EmptyString EmptyString "https://x.com/settings" 0
  = (results_init, [], 0).
Proof.
  apply (X21_no_identity_no_search nat demo_search demo_match (demo_score 80)
           "https://x.com/settings" 0).
  reflexivity.
Defined.

(** ** The search engine *)

Section EngineFacts.

Import SyncProxyManager SyncSearchEngine.

Variable unquote : string -> option string.
Variable Net : Type.
Variable session_get : string -> option proxy -> Net -> option Response * Net.

Local Abbreviation clean_redirect := (clean_redirect unquote).
Local Abbreviation from_platform_link := (from_platform_link unquote).
Local Abbreviation direct_link := (direct_link unquote).
Local Abbreviation direct_extraction := (direct_extraction unquote).
Local Abbreviation parse_divs := (parse_divs unquote).
Local Abbreviation extract := (extract unquote).
Local Abbreviation search_attempts := (search_attempts unquote Net session_get).
Local Abbreviation search_with_requests :=
  (SyncSearchEngine.search_with_requests unquote Net session_get).

(** *** What is extracted *)

Lemma direct_link_platform (p : platform) (link : Tag) (r : SearchResult) :
  direct_link p link = Some r -> from_platform_link p r.
Proof.
  unfold direct_link.
  set (href := match attr_href link with Some h => h | None => EmptyString end).
  destruct p; cbn [is_platform_url].
  - destruct (contains "youtube.com" href) eqn:Ec; [|discriminate].
    destruct (negb (any_in non_channel_paths href)); [|discriminate].
    cbn [andb].
    destruct (truthy (strip (get_text link)) && (3 <? String.length (strip (get_text link))));
      [|discriminate].
    intros [= <-]. now exists href.
  - destruct (contains "twitch.tv" href) eqn:Ec; [|discriminate].
    cbn [andb].
    destruct (truthy (strip (get_text link)) && (3 <? String.length (strip (get_text link))));
      [|discriminate].
    intros [= <-]. now exists href.
Qed.

Lemma parse_divs_platform (p : platform) (max_results : nat) (divs : list Div) :
  forall acc out,
    parse_divs p max_results divs acc = Ok out ->
    Forall (from_platform_link p) acc ->
    Forall (from_platform_link p) out.
Proof.
  induction divs as [|div rest IH]; intros acc out H Hacc; cbn [SyncSearchEngine.parse_divs] in H.
  - now injection H as <-.
  - destruct (pick has_text div title_selectors None) as [title_elem|]; [|eauto].
    destruct (pick has_href div link_selectors None) as [link_elem|]; [|eauto].
    destruct (attr_href link_elem) as [url|]; [|discriminate].
    destruct (is_platform_url p url) eqn:Ep; [|eauto].
    match type of H with
    | (if _ then Ok ?res else _) = _ =>
        assert (Hres : Forall (from_platform_link p) res)
    end.
    { apply Forall_app. split; [exact Hacc|]. repeat constructor.
      now exists url. }
    destruct (_ <=? _); [now injection H as <- | eauto].
Qed.

Lemma parse_divs_length (p : platform) (max_results : nat) (divs : list Div) :
  forall acc out,
    parse_divs p max_results divs acc = Ok out ->
    length acc < max_results ->
    length out <= max_results.
Proof.
  induction divs as [|div rest IH]; intros acc out H Hacc; cbn [SyncSearchEngine.parse_divs] in H.
  - injection H as <-. lia.
  - destruct (pick has_text div title_selectors None) as [title_elem|]; [|eauto].
    destruct (pick has_href div link_selectors None) as [link_elem|]; [|eauto].
    destruct (attr_href link_elem) as [url|]; [|discriminate].
    destruct (is_platform_url p url); [|eauto].
    match type of H with
    | (if (_ <=? length ?res) then _ else _) = _ =>
        set (results' := res) in *;
        assert (Hres : length results' = S (length acc))
          by (subst results'; rewrite length_app; simpl; lia);
        clearbody results';
        destruct (Nat.leb_spec max_results (length results'))
    end.
    + injection H as <-. lia.
    + eapply IH; [exact H | lia].
Qed.

Lemma extract_length (p : platform) (max_results : nat) (page : Soup) out :
  extract p max_results page = Ok out -> length out <= max_results.
Proof.
  unfold extract.
  destruct (first_selection page search_result_selectors []) as [|d ds].
  - intros [= <-]. unfold direct_extraction. rewrite length_take. lia.
  - destruct max_results as [|m].
    + cbn [Nat.mul take SyncSearchEngine.parse_divs]. now intros [= <-].
    + intros H. eapply parse_divs_length; [exact H | simpl; lia].
Qed.

Lemma extract_platform (p : platform) (max_results : nat) (page : Soup) out :
  extract p max_results page = Ok out -> Forall (from_platform_link p) out.
Proof.
  unfold extract.
  destruct (first_selection page search_result_selectors []) as [|d ds].
  - intros [= <-]. unfold direct_extraction.
    apply Forall_take, Forall_forall. intros r Hr.
    apply list_elem_of_omap in Hr as (link & _ & Hl).
    exact (direct_link_platform p link r Hl).
  - intros H. eapply parse_divs_platform; [exact H | constructor].
Qed.

(** *** The attempts *)

(** What an answer of the engine is: nothing, or what one page gave. *)
Lemma search_attempts_results (n : nat) (query : string) (p : platform)
    (max_results : nat) :
  forall pm net out,
    (search_attempts n query p max_results pm net).1.1.1 = Ok out ->
    out = [] \/ exists page, extract p max_results page = Ok out.
Proof.
  induction n as [|n IH]; intros pm net out; cbn [SyncSearchEngine.search_attempts].
  - cbn. intros [= <-]. now left.
  - destruct (get_next_proxy pm) as [[proxy|] pm1]; [|discriminate].
    destruct (session_get (search_url query p) proxy net) as [r net1].
    specialize (IH (mark_proxy_failed proxy pm1) net1 out).
    destruct (search_attempts n query p max_results
                (mark_proxy_failed proxy pm1) net1) as [[[res reqs] pm2] net2].
    cbn [fst snd] in IH.
    destruct r as [response|]; [|exact IH].
    destruct (status_code response =? 200)%Z; [|exact IH].
    destruct (contains bot_phrase (text response)); [exact IH|].
    destruct (extract p max_results (soup response)) as [results|] eqn:Ex;
      [|exact IH].
    cbn [fst snd]. intros [= <-]. right. now exists (soup response).
Qed.

(** X22: a search never returns more than [max_results] results, and each
    result comes from a link whose address contains the platform name,
    cleaned of its redirect wrapper. *)
Theorem X22_search_results_bounded (query : string) (p : platform)
    (max_results : nat) (pm : t) (net : Net) (results : list SearchResult) :
  (search_with_requests query p max_results pm net).1.1.1 = Ok results ->
  length results <= max_results /\ Forall (from_platform_link p) results.
Proof.
  intros H. apply search_attempts_results in H as [->|[page Hp]].
  - split; [simpl; lia | constructor].
  - split; [exact (extract_length _ _ _ _ Hp) | exact (extract_platform _ _ _ _ Hp)].
Qed.

Lemma mark_proxy_failed_proxies (proxy : option proxy) (pm : t) :
  proxies (mark_proxy_failed proxy pm) = proxies pm.
Proof. now destruct proxy. Qed.

Lemma search_attempts_requests (n : nat) (query : string) (p : platform)
    (max_results : nat) :
  forall pm net,
    length (search_attempts n query p max_results pm net).1.1.2 <= n /\
    Forall (fun r : request =>
              r.1 = search_url query p /\
              forall proxy, r.2 = Some proxy -> proxy ∈ proxies pm)
           (search_attempts n query p max_results pm net).1.1.2.
Proof.
  induction n as [|n IH]; intros pm net; cbn [SyncSearchEngine.search_attempts].
  - cbn. split; [lia | constructor].
  - pose proof (PoolFacts.get_next_proxy_proxies pm) as Hp.
    pose proof (ProxyFacts.get_next_proxy_returns pm) as Hret.
    destruct (get_next_proxy pm) as [[proxy|] pm1];
      [|cbn; split; [lia | constructor]].
    cbn [fst snd] in Hp, Hret.
    destruct (session_get (search_url query p) proxy net) as [r net1].
    destruct (IH (mark_proxy_failed proxy pm1) net1) as [IHl IHf].
    rewrite mark_proxy_failed_proxies, Hp in IHf.
    assert (Hreq : (search_url query p, proxy).1 = search_url query p /\
                   forall proxy0, (search_url query p, proxy).2 = Some proxy0 ->
                                  proxy0 ∈ proxies pm).
    { split; [reflexivity|]. cbn [snd]. intros proxy0 ->.
      now destruct (Hret proxy0 eq_refl). }
    destruct (search_attempts n query p max_results
                (mark_proxy_failed proxy pm1) net1) as [[[res reqs] pm2] net2].
    cbn [fst snd] in IHl, IHf.
    assert (Hretry : length ((search_url query p, proxy) :: reqs) <= S n /\
                     Forall (fun r : request =>
                               r.1 = search_url query p /\
                               forall proxy, r.2 = Some proxy -> proxy ∈ proxies pm)
                            ((search_url query p, proxy) :: reqs)).
    { split; [exact (le_n_S _ _ IHl) | now constructor]. }
    destruct r as [response|]; [|exact Hretry].
    destruct (status_code response =? 200)%Z; [|exact Hretry].
    destruct (contains bot_phrase (text response)); [exact Hretry|].
    destruct (extract p max_results (soup response)); [|exact Hretry].
    cbn [fst snd]. split; [simpl; lia | now repeat constructor].
Qed.

(** X23: one search calls [session.get] at most three times, each time
    with the one search address built from the query and the platform, and
    with a proxy of the pool's list or with none. *)
Theorem X23_search_requests (query : string) (p : platform) (max_results : nat)
    (pm : t) (net : Net) :
  length (search_with_requests query p max_results pm net).1.1.2 <= 3 /\
  Forall (fun r : request =>
            r.1 = search_url query p /\
            forall proxy, r.2 = Some proxy -> proxy ∈ proxies pm)
         (search_with_requests query p max_results pm net).1.1.2.
Proof. apply search_attempts_requests. Qed.

Lemma mark_proxy_failed_wf (proxy : option proxy) (pm : t) :
  wf pm -> wf (mark_proxy_failed proxy pm).
Proof. now destruct proxy. Qed.

(** Marks are kept, and the pool stays in range, through the attempts. *)
Lemma search_attempts_pool (n : nat) (query : string) (p : platform)
    (max_results : nat) :
  forall pm net,
    failed_proxies pm ⊆ failed_proxies (search_attempts n query p max_results pm net).1.2 /\
    (wf pm ->
     wf (search_attempts n query p max_results pm net).1.2 /\
     (search_attempts n query p max_results pm net).1.1.1 <> Raise).
Proof.
  induction n as [|n IH]; intros pm net; cbn [SyncSearchEngine.search_attempts].
  - cbn. split; [reflexivity | intros Hwf; split; [exact Hwf | discriminate]].
  - pose proof (ProxyFacts.get_next_proxy_failed pm) as Hf.
    pose proof (ProxyFacts.get_next_proxy_wf pm) as Hwf1.
    destruct (get_next_proxy pm) as [[proxy|] pm1]; cbn [fst snd] in Hf, Hwf1.
    2:{ cbn. split; [now rewrite Hf|]. intros Hwf. now destruct (Hwf1 Hwf). }
    destruct (session_get (search_url query p) proxy net) as [r net1].
    destruct (IH (mark_proxy_failed proxy pm1) net1) as [IHf IHw].
    destruct (search_attempts n query p max_results
                (mark_proxy_failed proxy pm1) net1) as [[[res reqs] pm2] net2].
    cbn [fst snd] in IHf, IHw.
    assert (Hretry : failed_proxies pm ⊆ failed_proxies pm2 /\
                     (wf pm -> wf pm2 /\ res <> Raise)).
    { split.
      - rewrite <- Hf. etransitivity; [|exact IHf].
        apply ProxyFacts.mark_proxy_failed_grows.
      - intros Hwf. apply IHw, mark_proxy_failed_wf. now destruct (Hwf1 Hwf). }
    destruct r as [response|]; [|exact Hretry].
    destruct (status_code response =? 200)%Z; [|exact Hretry].
    destruct (contains bot_phrase (text response)); [exact Hretry|].
    destruct (extract p max_results (soup response)); [|exact Hretry].
    cbn [fst snd]. split; [now rewrite Hf|].
    intros Hwf. split; [now destruct (Hwf1 Hwf) | discriminate].
Qed.

(** When every page carries the bot-detection phrase, every attempt is
    given up and its proxy marked. *)
Lemma search_attempts_bot (n : nat) (query : string) (p : platform)
    (max_results : nat) :
  (forall url proxy net, exists response,
      (session_get url proxy net).1 = Some response /\
      status_code response = 200%Z /\
      contains bot_phrase (text response) = true) ->
  forall pm net,
    wf pm ->
    (search_attempts n query p max_results pm net).1.1.1 = Ok [] /\
    length (search_attempts n query p max_results pm net).1.1.2 = n /\
    forall proxy,
      (search_url query p, Some proxy)
        ∈ (search_attempts n query p max_results pm net).1.1.2 ->
      http proxy ∈ failed_proxies (search_attempts n query p max_results pm net).1.2.
Proof.
  intros Hbot. induction n as [|n IH]; intros pm net Hwf;
    cbn [SyncSearchEngine.search_attempts].
  - cbn. split; [reflexivity|]. split; [reflexivity|].
    intros proxy Hin. inversion Hin.
  - destruct (ProxyFacts.get_next_proxy_wf pm Hwf) as [Hwf1 Hok].
    destruct (get_next_proxy pm) as [[proxy|] pm1]; cbn [fst snd] in Hwf1, Hok;
      [|congruence].
    destruct (Hbot (search_url query p) proxy net) as (response & Hr & Hs & Hb).
    destruct (session_get (search_url query p) proxy net) as [r net1].
    cbn [fst] in Hr. subst r. rewrite Hs, Hb. cbn [Z.eqb Pos.eqb].
    destruct (IH (mark_proxy_failed proxy pm1) net1
                (mark_proxy_failed_wf proxy pm1 Hwf1)) as (IHr & IHl & IHm).
    destruct (search_attempts_pool n query p max_results
                (mark_proxy_failed proxy pm1) net1) as [Hmono _].
    destruct (search_attempts n query p max_results
                (mark_proxy_failed proxy pm1) net1) as [[[res reqs] pm2] net2].
    cbn [fst snd] in *. split; [exact IHr|]. split; [now rewrite <- IHl|].
    intros proxy0 Hin. apply elem_of_cons in Hin as [[= <-]|Hin]; [|auto].
    apply Hmono. cbn. apply elem_of_union. left. now apply elem_of_singleton.
Qed.

(** X24: when every page the search engine gets carries the bot-detection
    phrase, a search on a loaded pool returns the empty list after three
    requests, and every proxy it went through is marked failed. *)
Theorem X24_bot_detection (query : string) (p : platform) (max_results : nat)
    (pm : t) (net : Net) :
  wf pm ->
  (forall url proxy net, exists response,
      (session_get url proxy net).1 = Some response /\
      status_code response = 200%Z /\
      contains bot_phrase (text response) = true) ->
  (search_with_requests query p max_results pm net).1.1.1 = Ok [] /\
  length (search_with_requests query p max_results pm net).1.1.2 = 3 /\
  forall proxy,
    (search_url query p, Some proxy)
      ∈ (search_with_requests query p max_results pm net).1.1.2 ->
    http proxy ∈ failed_proxies (search_with_requests query p max_results pm net).1.2.
Proof. intros Hwf Hbot. now apply search_attempts_bot. Qed.

Lemma search_attempts_gave_up (n : nat) (query : string) (p : platform)
    (max_results : nat) :
  forall pm net pre last,
    (search_attempts n query p max_results pm net).1.1.2 = pre ++ [last] ->
    forall proxy,
      (search_url query p, Some proxy) ∈ pre ->
      http proxy ∈ failed_proxies (search_attempts n query p max_results pm net).1.2.
Proof.
  induction n as [|n IH]; intros pm net pre last;
    cbn [SyncSearchEngine.search_attempts].
  - cbn. intros H. now destruct pre.
  - destruct (get_next_proxy pm) as [[proxy|] pm1];
      [|cbn; intros H; now destruct pre].
    destruct (session_get (search_url query p) proxy net) as [r net1].
    specialize (IH (mark_proxy_failed proxy pm1) net1).
    destruct (search_attempts_pool n query p max_results
                (mark_proxy_failed proxy pm1) net1) as [Hmono _].
    destruct (search_attempts n query p max_results
                (mark_proxy_failed proxy pm1) net1) as [[[res reqs] pm2] net2].
    cbn [fst snd] in IH, Hmono.
    assert (Hretry : (search_url query p, proxy) :: reqs = pre ++ [last] ->
                     forall proxy0, (search_url query p, Some proxy0) ∈ pre ->
                                    http proxy0 ∈ failed_proxies pm2).
    { intros H proxy0 Hin. destruct pre as [|x pre]; [inversion Hin|].
      injection H as <- Hreqs.
      apply elem_of_cons in Hin as [[= <-]|Hin].
      - apply Hmono. cbn. apply elem_of_union. left. now apply elem_of_singleton.
      - exact (IH pre last Hreqs proxy0 Hin). }
    destruct r as [response|]; [|exact Hretry].
    destruct (status_code response =? 200)%Z; [|exact Hretry].
    destruct (contains bot_phrase (text response)); [exact Hretry|].
    destruct (extract p max_results (soup response)); [|exact Hretry].
    cbn [fst snd]. intros H proxy0 Hin.
    destruct pre as [|x [|y pre]]; [inversion Hin | discriminate H | discriminate H].
Qed.

(** X25: whenever a search goes on to another request, the proxy of the
    request it gave up (failed request, bad status, bot page or unreadable
    page) is marked failed: at the end, every proxy used by a request
    other than the last one is in the failure set. *)
Theorem X25_given_up_proxies_marked (query : string) (p : platform)
    (max_results : nat) (pm : t) (net : Net) (pre : list request) (last : request)
    (proxy : proxy) :
  (search_with_requests query p max_results pm net).1.1.2 = pre ++ [last] ->
  (search_url query p, Some proxy) ∈ pre ->
  http proxy ∈ failed_proxies (search_with_requests query p max_results pm net).1.2.
Proof. intros H. now apply (search_attempts_gave_up _ _ _ _ _ _ _ _ H). Qed.

(** X26: on a pool whose index is in range a search never raises: a failed
    request, a bad status, a bot page and an exception while reading the
    page are all absorbed, a list is returned, and the pool stays in
    range. *)
Theorem X26_search_never_raises (query : string) (p : platform)
    (max_results : nat) (pm : t) (net : Net) :
  wf pm ->
  (exists results,
      (search_with_requests query p max_results pm net).1.1.1 = Ok results) /\
  wf (search_with_requests query p max_results pm net).1.2.
Proof.
  intros Hwf.
  destruct (search_attempts_pool max_proxy_attempts query p max_results pm net)
    as [_ Hw].
  destruct (Hw Hwf) as [Hwf' Hok]. split; [|exact Hwf'].
  unfold SyncSearchEngine.search_with_requests.
  destruct (search_attempts max_proxy_attempts query p max_results pm net).1.1.1
    as [results|]; [eauto | congruence].
Qed.

End EngineFacts.

Module EngineExamples.

Import SyncProxyManager SyncSearchEngine EngineDemo.

Example demo_search_run :
  (search_with_requests demo_unquote nat demo_get "alice" youtube 5 demo_pool 0).1.1
  = (Ok [{| sr_title := "Alice W";
            sr_url := "https://www.youtube.com/@alice";
            sr_snippet := "" |}],
     [(search_url "alice" youtube, Some proxy_a);
      (search_url "alice" youtube, Some proxy_b)]) /\
  search_url "alice" youtube
  = "https://www.google.com/search?q=alice+youtube+channel".
Proof. split; vm_compute; reflexivity. Qed.

Lemma X22_search_results_bounded_witness :
  length [{| sr_title := "Alice W";
             sr_url := "https://www.youtube.com/@alice";
             sr_snippet := "" |}] <= 5 /\
  Forall (from_platform_link demo_unquote youtube)
         [{| sr_title := "Alice W";
             sr_url := "https://www.youtube.com/@alice";
             sr_snippet := "" |}].
Proof.
  apply (X22_search_results_bounded demo_unquote nat demo_get "alice" youtube 5
           demo_pool 0).
  vm_compute. reflexivity.
Defined.

Lemma X24_bot_detection_witness :
  (search_with_requests demo_unquote nat bot_get "alice" youtube 5 demo_pool 0).1.1.1
  = Ok [] /\
  length (search_with_requests demo_unquote nat bot_get "alice" youtube 5
            demo_pool 0).1.1.2 = 3 /\
  forall proxy,
    (search_url "alice" youtube, Some proxy)
      ∈ (search_with_requests demo_unquote nat bot_get "alice" youtube 5
           demo_pool 0).1.1.2 ->
    http proxy
      ∈ failed_proxies (search_with_requests demo_unquote nat bot_get "alice"
                          youtube 5 demo_pool 0).1.2.
Proof.
  apply (X24_bot_detection demo_unquote nat bot_get "alice" youtube 5 demo_pool 0).
  - right. simpl. lia.
  - intros url proxy net. exists bot_response. repeat split.
Defined.

Lemma X25_given_up_proxies_marked_witness :
  http proxy_a
    ∈ failed_proxies (search_with_requests demo_unquote nat demo_get "alice"
                        youtube 5 demo_pool 0).1.2.
Proof.
  apply (X25_given_up_proxies_marked demo_unquote nat demo_get "alice" youtube 5
           demo_pool 0 [(search_url "alice" youtube, Some proxy_a)]
           (search_url "alice" youtube, Some proxy_b) proxy_a).
  - vm_compute. reflexivity.
  - apply list_elem_of_singleton. reflexivity.
Defined.

Lemma X26_search_never_raises_witness :
  (exists results,
      (search_with_requests demo_unquote nat demo_get "alice" youtube 5
         demo_pool 0).1.1.1 = Ok results) /\
  wf (search_with_requests demo_unquote nat demo_get "alice" youtube 5
        demo_pool 0).1.2.
Proof.
  apply (X26_search_never_raises demo_unquote nat demo_get "alice" youtube 5
           demo_pool 0).
  right. simpl. lia.
Defined.

End EngineExamples.

(** ** The engine under the channel finder *)

Section EngineUnderFinder.

Import SyncProxyManager SyncSearchEngine.

Variable unquote : string -> option string.
Variable Net : Type.
Variable session_get : string -> option proxy -> Net -> option Response * Net.
Variable enhanced_name_match : string -> string -> string -> option bool.
Variable calculate_match_score : string -> string -> string -> string -> option Z.

Lemma engine_search_requests (q : string) (p : platform)
    (w : t * Net * list request) :
  length (engine_search unquote Net session_get q p w).2.2 <= length w.2 + 3.
Proof.
  destruct w as [[pm net] log]. unfold engine_search.
  pose proof (search_attempts_requests unquote Net session_get
                max_proxy_attempts q p 5 pm net) as [Hl _].
  unfold SyncSearchEngine.search_with_requests.
  destruct (search_attempts unquote Net session_get max_proxy_attempts q p 5 pm net)
    as [[[res reqs] pm'] net'].
  cbn [fst snd] in *. rewrite length_app.
  change max_proxy_attempts with 3 in Hl.
  apply Nat.add_le_mono_l. exact Hl.
Qed.

(** X27: with the search engine in place, resolving one identity calls
    [session.get] at most eighteen times: six searches of three attempts
    each. *)
Theorem X27_identity_request_budget (username profile_name url : string)
    (pm : t) (net : Net) (log : list request) :
  length (find_channels_for_user (t * Net * list request)
            (engine_search unquote Net session_get)
            enhanced_name_match calculate_match_score
            username profile_name url (pm, net, log)).2.2
  <= length log + 18.
Proof.
  pose proof (run_cost (t * Net * list request)
                (engine_search unquote Net session_get)
                enhanced_name_match calculate_match_score username profile_name
                (fun w => length w.2) 3 url (pm, net, log)
                engine_search_requests) as H.
  cbn [snd] in H. exact H.
Qed.

End EngineUnderFinder.

(** ** Validation and the batch *)

Section BatchMore.

Import Validate.

Variable World : Type.
Variable find_channels : cell -> cell -> cell -> World -> option Channels * World.
Variable report_progress : Z -> nat -> cell -> bool.




Lemma get_in_keys (col : string) (row : record) :
  In col (map fst row) -> is_Some (get col row).
Proof.
  induction row as [|[k v] row IH]; [intros []|].
  cbn [map fst get In]. intros [->|Hin].
  - rewrite String.eqb_refl. eauto.
  - destruct (String.eqb k col); [eauto | auto].
Qed.

Lemma mem_In (x : string) (xs : list string) : mem x xs = true -> In x xs.
Proof.
  unfold mem. intros H. apply existsb_exists in H as (y & Hy & E).
  apply String.eqb_eq in E. now subst y.
Qed.

(** X29: a frame that [validate_csv] accepts is not empty, and when its
    rows carry the frame's columns, its index is the default 0, 1, ... and
    the progress calls return on every value above 0 and up to 1, the
    batch processes it without aborting and returns one row per input row;
    the message is then the valid-format one. *)
Theorem X29_validated_frame_is_processed (df : DataFrame) (message : string)
    (w : World) :
  frame_ok df ->
  (forall k n username,
      (0 < k <= Z.of_nat n)%Z -> report_progress k n username = true) ->
  validate_csv df = (true, message) ->
  message = "Valid CSV format" /\
  rows df <> [] /\
  exists out,
    (process_users_with_real_logic World find_channels report_progress
       (range_index (rows df)) w).1 = Ok out /\
    length out = length (rows df).
Proof.
  intros Hframe Hrep. unfold validate_csv.
  destruct (forallb (fun col => mem col (columns df)) required_columns) eqn:Ecols;
    cbn [negb]; [|discriminate].
  destruct (empty df) eqn:Eempty; [discriminate|].
  destruct (all_usernames_na df); [discriminate|].
  intros [= <-]. split; [reflexivity|].
  split; [unfold empty in Eempty; now destruct (rows df)|].
  assert (Hreq : Forall (fun row => has_required row = true) (rows df)).
  { eapply Forall_impl; [exact Hframe|]. intros row Hkeys. cbv beta in Hkeys.
    unfold has_required. apply forallb_forall. intros col Hcol.
    apply bool_decide_eq_true, get_in_keys. rewrite Hkeys.
    apply mem_In. exact (proj1 (forallb_forall _ _) Ecols col Hcol). }
  pose proof (range_index_ready report_progress (rows df) Hrep Hreq) as Hready.
  rewrite <- (range_index_length (rows df)) in Hready.
  destruct (process_rows_ok World find_channels report_progress _ _ Hready w)
    as (out & w' & Hrun & Hall).
  exists out. unfold process_users_with_real_logic. rewrite Hrun.
  split; [reflexivity|].
  rewrite <- (Forall2_length _ _ _ Hall), length_map.
  apply range_index_length.
Qed.

End BatchMore.

Lemma X29_validated_frame_is_processed_witness :
  "Valid CSV format" = "Valid CSV format" /\
  demo_df <> [] /\
  exists out,
    (process_users_with_real_logic nat demo_find demo_report
       (range_index demo_df) 0).1 = Ok out /\
    length out = length demo_df.
Proof.
  apply (X29_validated_frame_is_processed nat demo_find demo_report
           {| Validate.columns := ["username"; "profile_name"; "url"; "followers"];
              Validate.rows := demo_df |} "Valid CSV format" 0).
  - repeat constructor.
  - exact demo_report_accepts.
  - reflexivity.
Defined.

Example batch_aborts_on_string_label :
  (process_users_with_real_logic nat demo_find demo_report demo_df_labelled 0).1
  = Raise /\
  (process_users_with_real_logic nat demo_find demo_report
     [(LInt 5, [("username", CStr "alice"); ("profile_name", CStr "Alice W");
                ("url", CStr "https://x.com/alicew"); ("followers", CInt 10)])] 0).1
  = Raise.
Proof. split; reflexivity. Qed.

Example validate_csv_rejects :
  Validate.validate_csv
    {| Validate.columns := ["username"; "url"]; Validate.rows := [] |}
  = (false, "Missing columns: profile_name, followers") /\
  Validate.validate_csv
    {| Validate.columns := ["username"; "profile_name"; "url"; "followers"];
       Validate.rows := [] |}
  = (false, "CSV file is empty") /\
  Validate.validate_csv
    {| Validate.columns := ["username"; "profile_name"; "url"; "followers"];
       Validate.rows := [[("username", CNaN); ("profile_name", CStr "Bob");
                          ("url", CStr "https://x.com/bob"); ("followers", CInt 3)]] |}
  = (false, "No valid usernames found").
Proof. repeat split; reflexivity. Qed.
